(** * Personal Photo Blog API (main.py): the photo registry and its handlers

    A shallow embedding of the FastAPI application of [main.py]: the two
    module-level globals [photos_db] and [photo_id_counter] form the state,
    every route handler is a function of its arguments and of that state,
    and the properties of the registry are proved about these functions. *)

From Stdlib Require Import ZArith DecimalString.
From stdpp Require Import base decidable option list numbers strings.

Local Open Scope string_scope.
Local Open Scope list_scope.
Local Open Scope Z_scope.

(** ** Python values used by the handlers *)

(** [str(n)] / [f"{n}"] for a Python [int]: decimal digits, a leading
    minus sign for negative numbers. *)
Definition str_int (n : Z) : string := NilZero.string_of_int (Z.to_int n).

(** Truth value of an [Optional[str]]: [None] and the empty string are
    falsy, every other string is truthy. *)
Definition truthy (tag : option string) : bool :=
  match tag with
  | None => false
  | Some s => negb (String.eqb s "")
  end.

(** [xs or []] for an [Optional[List[str]]]: [None] and the empty list are
    falsy and give the fresh empty list. *)
Definition or_empty (xs : option (list string)) : list string :=
  match xs with
  | None => []
  | Some [] => []
  | Some l => l
  end.

(** ** Data model *)

(** [class Photo(BaseModel)]: the validated request body. *)
Module Photo.
Record t := mk {
  title : string;
  description : option string;
  url : string;
  tags : option (list string)
}.
End Photo.

(** The dictionaries stored in [photos_db], of the shape declared by
    [class PhotoResponse(Photo)]: the handlers always build them with all
    six keys, and with a list under ["tags"]. *)
Module PhotoResponse.
Record t := mk {
  id : Z;
  title : string;
  description : option string;
  url : string;
  tags : list string;
  created_at : string
}.
End PhotoResponse.

#[global] Instance PhotoResponse_eq_dec : EqDecision PhotoResponse.t.
Proof. solve_decision. Defined.

(** [HTTPException(status_code=..., detail=...)]. *)
Record HTTPException := { status_code : Z; detail : string }.

Inductive result (A : Type) : Type :=
| Return (a : A)
| Raise (e : HTTPException).
Arguments Return {A} a.
Arguments Raise {A} e.

(** The module-level globals. *)
Record state := {
  photos_db : list PhotoResponse.t;
  photo_id_counter : Z
}.

(** The globals as [main.py] initialises them at import. *)
Definition initial : state := {| photos_db := []; photo_id_counter := 1 |}.

(** The body returned by [delete_photo]. *)
Record DeleteResponse := {
  message : string;
  deleted_photo : PhotoResponse.t
}.

(** The body returned by [health_check]. *)
Record HealthResponse := {
  status : string;
  timestamp : string;
  photos_count : nat
}.

(** The body returned by [read_root]. *)
Record RootResponse := {
  root_message : string;
  version : string;
  endpoints : list (string * string)
}.

(** ** Route handlers *)

Definition read_root : RootResponse :=
  {| root_message := "Welcome to Personal Photo Blog API";
     version := "1.0.0";
     endpoints :=
       [ ("GET /", "API information");
         ("GET /health", "Health check");
         ("GET /photos", "List all photos");
         ("GET /photos/{photo_id}", "Get a specific photo");
         ("POST /photos", "Create a new photo");
         ("PUT /photos/{photo_id}", "Update a photo");
         ("DELETE /photos/{photo_id}", "Delete a photo") ] |}.

(** [now] stands for [datetime.utcnow().isoformat()] read by the handler. *)
Definition health_check (now : string) (st : state) : HealthResponse :=
  {| status := "healthy";
     timestamp := now;
     photos_count := length (photos_db st) |}.

Definition list_photos (tag : option string) (st : state)
  : list PhotoResponse.t :=
  match tag with
  | Some t =>
      if truthy tag
      then filter (λ p, t ∈ PhotoResponse.tags p) (photos_db st)
      else photos_db st
  | None => photos_db st
  end.

Definition not_found (photo_id : Z) : HTTPException :=
  {| status_code := 404;
     detail := "Photo with id " +:+ str_int photo_id +:+ " not found" |}.

(** The loop [for i, photo in enumerate(photos_db): if photo["id"] ==
    photo_id: ...] leaves at the first index whose record has the id. *)
Definition find_photo (photo_id : Z) (db : list PhotoResponse.t)
  : option (nat * PhotoResponse.t) :=
  list_find (λ p, PhotoResponse.id p = photo_id) db.

Definition get_photo (photo_id : Z) (st : state) : result PhotoResponse.t :=
  match find_photo photo_id (photos_db st) with
  | Some (_, photo) => Return photo
  | None => Raise (not_found photo_id)
  end.

Definition create_photo (photo : Photo.t) (now : string) (st : state)
  : PhotoResponse.t * state :=
  let new_photo :=
    {| PhotoResponse.id := photo_id_counter st;
       PhotoResponse.title := Photo.title photo;
       PhotoResponse.description := Photo.description photo;
       PhotoResponse.url := Photo.url photo;
       PhotoResponse.tags := or_empty (Photo.tags photo);
       PhotoResponse.created_at := now |} in
  (new_photo,
   {| photos_db := photos_db st ++ [new_photo];
      photo_id_counter := photo_id_counter st + 1 |}).

Definition update_photo (photo_id : Z) (photo : Photo.t) (st : state)
  : result PhotoResponse.t * state :=
  match find_photo photo_id (photos_db st) with
  | Some (i, existing_photo) =>
      let updated_photo :=
        {| PhotoResponse.id := photo_id;
           PhotoResponse.title := Photo.title photo;
           PhotoResponse.description := Photo.description photo;
           PhotoResponse.url := Photo.url photo;
           PhotoResponse.tags := or_empty (Photo.tags photo);
           PhotoResponse.created_at :=
             PhotoResponse.created_at existing_photo |} in
      (Return updated_photo,
       {| photos_db := <[i := updated_photo]> (photos_db st);
          photo_id_counter := photo_id_counter st |})
  | None => (Raise (not_found photo_id), st)
  end.

(** [photos_db.pop(i)] hands back the element at index [i], which is the
    [photo] the loop is looking at, and removes it from the list. *)
Definition delete_photo (photo_id : Z) (st : state)
  : result DeleteResponse * state :=
  match find_photo photo_id (photos_db st) with
  | Some (i, photo) =>
      (Return {| message := "Photo " +:+ str_int photo_id
                              +:+ " deleted successfully";
                 deleted_photo := photo |},
       {| photos_db := delete i (photos_db st);
          photo_id_counter := photo_id_counter st |})
  | None => (Raise (not_found photo_id), st)
  end.

(** ** The HTTP surface

    FastAPI decodes the request, validates the body against [Photo] before
    the handler runs (answering 422 itself when validation fails), calls
    the handler, and renders a raised [HTTPException] as a response with
    its status code and the body [{"detail": detail}]. *)

(** A field of a JSON request body, as the validation of [Photo] sees it. *)
Inductive field (A : Type) : Type :=
| Missing
| Null
| Malformed
| Given (a : A).
Arguments Missing {A}.
Arguments Null {A}.
Arguments Malformed {A}.
Arguments Given {A} a.

Record PhotoBody := {
  body_title : field string;
  body_description : field string;
  body_url : field string;
  body_tags : field (list string)
}.

(** A field annotated [str], without default. *)
Definition required {A} (f : field A) : option A :=
  match f with
  | Given a => Some a
  | _ => None
  end.

(** A field annotated [Optional[...] = default]. *)
Definition optional {A} (default : option A) (f : field A)
  : option (option A) :=
  match f with
  | Missing => Some default
  | Null => Some None
  | Malformed => None
  | Given a => Some (Some a)
  end.

(** Validation of a body against [class Photo]; [None] is a validation
    error. *)
Definition validate (b : PhotoBody) : option Photo.t :=
  title ← required (body_title b);
  description ← optional None (body_description b);
  url ← required (body_url b);
  tags ← optional (Some []) (body_tags b);
  Some (Photo.mk title description url tags).

Inductive content : Type :=
| RootInfo (r : RootResponse)
| HealthInfo (h : HealthResponse)
| PhotoList (l : list PhotoResponse.t)
| OnePhoto (p : PhotoResponse.t)
| DeleteInfo (d : DeleteResponse)
| ErrorDetail (detail : string)
| ValidationErrors.

Record response := { http_status : Z; body : content }.

Inductive request : Type :=
| GET_root
| GET_health (now : string)
| GET_photos (tag : option string)
| GET_photo (photo_id : Z)
| POST_photos (b : PhotoBody) (now : string)
| PUT_photo (photo_id : Z) (b : PhotoBody)
| DELETE_photo (photo_id : Z).

Definition render {A} (ok_status : Z) (ok_body : A → content)
    (r : result A) : response :=
  match r with
  | Return a => {| http_status := ok_status; body := ok_body a |}
  | Raise e => {| http_status := status_code e;
                  body := ErrorDetail (detail e) |}
  end.

Definition unprocessable : response :=
  {| http_status := 422; body := ValidationErrors |}.

Definition handle (req : request) (st : state) : response * state :=
  match req with
  | GET_root => (render 200 RootInfo (Return read_root), st)
  | GET_health now => (render 200 HealthInfo (Return (health_check now st)), st)
  | GET_photos tag => (render 200 PhotoList (Return (list_photos tag st)), st)
  | GET_photo photo_id => (render 200 OnePhoto (get_photo photo_id st), st)
  | POST_photos b now =>
      match validate b with
      | Some photo =>
          let '(new_photo, st') := create_photo photo now st in
          (render 201 OnePhoto (Return new_photo), st')
      | None => (unprocessable, st)
      end
  | PUT_photo photo_id b =>
      match validate b with
      | Some photo =>
          let '(r, st') := update_photo photo_id photo st in
          (render 200 OnePhoto r, st')
      | None => (unprocessable, st)
      end
  | DELETE_photo photo_id =>
      let '(r, st') := delete_photo photo_id st in
      (render 200 DeleteInfo r, st')
  end.

(** A run of the service: the requests are served one after the other. *)
Fixpoint run (reqs : list request) (st : state) : list response * state :=
  match reqs with
  | [] => ([], st)
  | req :: reqs' =>
      let '(resp, st1) := handle req st in
      let '(resps, st2) := run reqs' st1 in
      (resp :: resps, st2)
  end.

(** The states the process can be in. *)
Definition reachable (st : state) : Prop :=
  ∃ reqs, (run reqs initial).2 = st.

(** The id a response reports as newly created (status 201), if any. *)
Definition created_id (resp : response) : option Z :=
  match body resp with
  | OnePhoto p =>
      if decide (http_status resp = 201) then Some (PhotoResponse.id p)
      else None
  | _ => None
  end.

Definition created_ids (resps : list response) : list Z :=
  omap created_id resps.

(** A response that reports a failure: NotFound (404) or
    ValidationError (422). *)
Definition failed (resp : response) : Prop :=
  http_status resp = 404 ∨ http_status resp = 422.

#[global] Instance failed_dec resp : Decision (failed resp).
Proof. unfold failed. apply _. Defined.

(** A create call that succeeds: a POST whose body passes the validation
    against [Photo], so that [create_photo] runs. *)
Definition is_create (req : request) : Prop :=
  match req with
  | POST_photos b _ => is_Some (validate b)
  | _ => False
  end.

#[global] Instance is_create_dec req : Decision (is_create req).
Proof. destruct req; apply _. Defined.

(** The ids of the stored records, in collection order. *)
Definition ids (db : list PhotoResponse.t) : list Z := PhotoResponse.id <$> db.

(** What every reachable state satisfies: ids are pairwise distinct and
    all below the counter. *)
Definition registry_ok (st : state) : Prop :=
  NoDup (ids (photos_db st)) ∧
  Forall (λ n, n < photo_id_counter st) (ids (photos_db st)).

(** The scenario of the test suite: three photos, then requests on them. *)
Definition photo1 : PhotoBody :=
  {| body_title := Given "Beach"; body_description := Missing;
     body_url := Given "https://example.com/1.jpg";
     body_tags := Given ["nature"; "beach"] |}.
Definition photo2 : PhotoBody :=
  {| body_title := Given "Peak"; body_description := Given "Snow";
     body_url := Given "https://example.com/2.jpg";
     body_tags := Given ["mountain"] |}.
Definition photo3 : PhotoBody :=
  {| body_title := Given "Valley"; body_description := Null;
     body_url := Given "https://example.com/3.jpg";
     body_tags := Given ["nature"; "landscape"] |}.
Definition minimal : PhotoBody :=
  {| body_title := Given "Minimal Photo"; body_description := Missing;
     body_url := Given "https://example.com/minimal.jpg";
     body_tags := Missing |}.

Definition three_photos : state :=
  (run [POST_photos photo1 "2024-01-01T10:00:00";
        POST_photos photo2 "2024-01-01T10:00:01";
        POST_photos photo3 "2024-01-01T10:00:02"] initial).2.

(** The id of the record a delete response hands back, if any. *)
Definition deleted_id (resp : response) : option Z :=
  match body resp with
  | DeleteInfo d => Some (PhotoResponse.id (deleted_photo d))
  | _ => None
  end.

Definition deleted_ids (resps : list response) : list Z :=
  omap deleted_id resps.

(** [needle in hay] for two Python strings: [needle] occurs in [hay]. *)
Fixpoint contains (needle hay : string) : bool :=
  String.prefix needle hay ||
  match hay with
  | EmptyString => false
  | String _ hay' => contains needle hay'
  end.

(** Ids grow along the collection, and lie between 1 and the counter. *)
Definition registry_sorted (st : state) : Prop :=
  (∀ i j x y,
     ids (photos_db st) !! i = Some x → ids (photos_db st) !! j = Some y →
     (i < j)%nat → x < y) ∧
  Forall (λ n, 1 ≤ n < photo_id_counter st) (ids (photos_db st)) ∧
  1 ≤ photo_id_counter st.

(** ** hello_add.py: printing the Fibonacci sequence

    The functions print; their model is the list of the lines printed. *)

(** The Fibonacci numbers by their recurrence, to compare the loop with. *)
Fixpoint fib (k : nat) : Z :=
  match k with
  | O => 0
  | S k' =>
      match k' with
      | O => 1
      | S k'' => fib k'' + fib k'
      end
  end.

Module hello_add.

(** The remaining [count] rounds of [for i in range(n)], entered with the
    current [i], [a] and [b]: each prints [f"{i + 1}: {a}"] and then
    performs [a, b = b, a + b]. *)
Fixpoint loop (count : nat) (i a b : Z) : list string :=
  match count with
  | O => []
  | S count' =>
      (str_int (i + 1) +:+ ": " +:+ str_int a)
        :: loop count' (i + 1) b (a + b)
  end.

Definition fibonacci (n : Z) : list string :=
  if decide (n ≤ 0) then []
  else ("Fibonacci sequence (first " +:+ str_int n +:+ " numbers):")
         :: loop (Z.to_nat n) 0 0 1.

Definition main : list string := fibonacci 100.

End hello_add.

(** ** test_main.py: the pytest fixture and tests

    The tests talk to the application through [TestClient(app)], that is
    through [handle] on the globals of [main]; a test is modelled as a
    function of the state it starts in that tells whether it ran to its
    end without a failed assertion or exception, with the state it
    leaves.  Clock readings of the handlers are arguments. *)

(** [response.json()["id"]]: only a photo body has the key. *)
Definition json_id (resp : response) : option Z :=
  match body resp with
  | OnePhoto p => Some (PhotoResponse.id p)
  | _ => None
  end.

(** [response.json()["message"]]: the bodies of [read_root] and
    [delete_photo] have the key. *)
Definition json_message (resp : response) : option string :=
  match body resp with
  | RootInfo r => Some (root_message r)
  | DeleteInfo d => Some (message d)
  | _ => None
  end.

Module test_main.

(** The autouse fixture [reset_db]: [photos_db.clear()] empties the list
    object shared with [main]; [globals()["photo_id_counter"] = 1] rebinds
    the name in the namespace of the test module, where
    [from main import photo_id_counter] had copied it, and leaves the
    global of [main] that [create_photo] reads and increments as it is. *)
Definition reset_db (st : state) : state :=
  {| photos_db := []; photo_id_counter := photo_id_counter st |}.

(** The body posted in round [i] of [test_photo_id_increment]. *)
Definition numbered_photo (i : Z) : PhotoBody :=
  {| body_title := Given ("Photo " +:+ str_int i);
     body_description := Missing;
     body_url := Given ("https://example.com/photo" +:+ str_int i +:+ ".jpg");
     body_tags := Missing |}.

(** The loop of [test_photo_id_increment] over the remaining [rounds],
    with the list [ids] collected so far; [None] when a response has no
    ["id"]. *)
Fixpoint post_numbered (rounds : list nat) (clock : nat → string)
    (ids : list Z) (st : state) : option (list Z) * state :=
  match rounds with
  | [] => (Some ids, st)
  | i :: rounds' =>
      let '(response, st1) :=
        handle (POST_photos (numbered_photo (Z.of_nat i)) (clock i)) st in
      match json_id response with
      | Some n => post_numbered rounds' clock (ids ++ [n]) st1
      | None => (None, st1)
      end
  end.

Definition test_photo_id_increment (clock : nat → string) (st : state)
  : bool * state :=
  let '(ids, st1) := post_numbered (seq 0 3) clock [] (reset_db st) in
  (bool_decide (ids = Some [1; 2; 3]), st1).

Definition to_delete : PhotoBody :=
  {| body_title := Given "To Delete";
     body_description := Missing;
     body_url := Given "https://example.com/delete.jpg";
     body_tags := Missing |}.

(** The path [f"/photos/{photo_id}"] carries the id in decimal and the
    application reads it back as the same integer. *)
Definition test_delete_photo (now : string) (st : state) : bool * state :=
  let '(create_response, st1) :=
    handle (POST_photos to_delete now) (reset_db st) in
  match json_id create_response with
  | None => (false, st1)
  | Some photo_id =>
      let '(response, st2) := handle (DELETE_photo photo_id) st1 in
      if negb (bool_decide (http_status response = 200)) then (false, st2)
      else
        match json_message response with
        | None => (false, st2)
        | Some message =>
            if negb (contains "deleted successfully" message)
            then (false, st2)
            else
              let '(get_response, st3) := handle (GET_photo photo_id) st2 in
              (bool_decide (http_status get_response = 404), st3)
        end
  end.

End test_main.

(** ** test_api.py: the script run against a live server

    [test_api()] sends its requests to the server, that is to [handle] on
    the globals of the serving process; [all_tests_passed] collects the
    status checks of [print_result], a failed [assert] or a missing key
    raises, and the [except] clause then makes the script return
    [False]. *)

(** [response.json() == []]. *)
Definition json_is_empty_list (resp : response) : bool :=
  match body resp with
  | PhotoList [] => true
  | _ => false
  end.

(** [len(response.json())]: the length of a list, the number of keys of
    an object. *)
Definition json_len (resp : response) : nat :=
  match body resp with
  | RootInfo _ => 3
  | HealthInfo _ => 3
  | PhotoList l => length l
  | OnePhoto _ => 6
  | DeleteInfo _ => 2
  | ErrorDetail _ => 1
  | ValidationErrors => 1
  end.

(** [response.json()["title"]], [["description"]] and [["tags"]]: only a
    photo body has these keys. *)
Definition json_title (resp : response) : option string :=
  match body resp with
  | OnePhoto p => Some (PhotoResponse.title p)
  | _ => None
  end.

Definition json_description (resp : response) : option (option string) :=
  match body resp with
  | OnePhoto p => Some (PhotoResponse.description p)
  | _ => None
  end.

Definition json_tags (resp : response) : option (list string) :=
  match body resp with
  | OnePhoto p => Some (PhotoResponse.tags p)
  | _ => None
  end.

Module test_api.

(** [print_result] prints and returns whether the status is the expected
    one. *)
Definition print_result (response : response) (expected_status : Z) : bool :=
  bool_decide (http_status response = expected_status).

Definition photo1_data : PhotoBody :=
  {| body_title := Given "Sunset at the Beach";
     body_description := Given "Beautiful sunset with vibrant colors";
     body_url := Given "https://example.com/sunset.jpg";
     body_tags := Given ["sunset"; "beach"; "nature"] |}.

Definition photo2_data : PhotoBody :=
  {| body_title := Given "Mountain Landscape";
     body_description := Given "Snow-capped mountains in winter";
     body_url := Given "https://example.com/mountain.jpg";
     body_tags := Given ["mountain"; "winter"; "landscape"] |}.

Definition photo3_data : PhotoBody :=
  {| body_title := Given "City at Night";
     body_description := Given "Urban skyline with lights";
     body_url := Given "https://example.com/city.jpg";
     body_tags := Given ["city"; "night"; "urban"] |}.

Definition updated_data : PhotoBody :=
  {| body_title := Given "Mountain Landscape - Updated";
     body_description := Given "Updated description with more details";
     body_url := Given "https://example.com/mountain_hd.jpg";
     body_tags := Given ["mountain"; "winter"; "landscape"; "hd"] |}.

Definition minimal_photo : PhotoBody :=
  {| body_title := Given "Minimal Photo";
     body_description := Missing;
     body_url := Given "https://example.com/minimal.jpg";
     body_tags := Missing |}.

(** Tests 13 to 16 and the final summary. *)
Definition test_api_delete (clock : nat → string) (passed : bool)
    (photo3_id : Z) (st : state) : bool * state :=
  let '(response, st) := handle (DELETE_photo photo3_id) st in
  let passed := passed && print_result response 200 in
  let '(response, st) := handle (GET_photos None) st in
  let passed := passed && print_result response 200 in
  if negb (bool_decide (json_len response = 2%nat)) then (false, st) else
  let '(response, st) := handle (DELETE_photo 9999) st in
  let passed := passed && print_result response 404 in
  let '(response, st) := handle (POST_photos minimal_photo (clock 4%nat)) st in
  let passed := passed && print_result response 201 in
  match json_description response, json_tags response with
  | Some description, Some tags =>
      if negb (bool_decide (description = None)) then (false, st) else
      if negb (bool_decide (tags = [])) then (false, st) else
      (passed, st)
  | _, _ => (false, st)
  end.

(** Tests 7 to 12. *)
Definition test_api_read_update (clock : nat → string) (passed : bool)
    (photo1_id photo2_id photo3_id : Z) (st : state) : bool * state :=
  let '(response, st) := handle (GET_photos None) st in
  let passed := passed && print_result response 200 in
  if negb (bool_decide (json_len response = 3%nat)) then (false, st) else
  let '(response, st) := handle (GET_photo photo1_id) st in
  let passed := passed && print_result response 200 in
  match json_title response with
  | None => (false, st)
  | Some title =>
  if negb (bool_decide (title = "Sunset at the Beach")) then (false, st) else
  let '(response, st) := handle (GET_photos (Some "nature")) st in
  let passed := passed && print_result response 200 in
  if negb (bool_decide (json_len response = 1%nat)) then (false, st) else
  let '(response, st) := handle (PUT_photo photo2_id updated_data) st in
  let passed := passed && print_result response 200 in
  match json_title response, json_tags response with
  | Some title, Some tags =>
  if negb (bool_decide (title = "Mountain Landscape - Updated"))
  then (false, st) else
  if negb (bool_decide ("hd" ∈ tags)) then (false, st) else
  let '(response, st) := handle (GET_photo 9999) st in
  let passed := passed && print_result response 404 in
  let '(response, st) := handle (PUT_photo 9999 photo1_data) st in
  let passed := passed && print_result response 404 in
  test_api_delete clock passed photo3_id st
  | _, _ => (false, st)
  end
  end.

(** Tests 1 to 6, then the rest. *)
Definition test_api (clock : nat → string) (st : state) : bool * state :=
  let passed := true in
  let '(response, st) := handle GET_root st in
  let passed := passed && print_result response 200 in
  let '(response, st) := handle (GET_health (clock 0%nat)) st in
  let passed := passed && print_result response 200 in
  let '(response, st) := handle (GET_photos None) st in
  let passed := passed && print_result response 200 in
  if negb (json_is_empty_list response) then (false, st) else
  let '(response, st) := handle (POST_photos photo1_data (clock 1%nat)) st in
  let passed := passed && print_result response 201 in
  match json_id response with
  | None => (false, st)
  | Some photo1_id =>
  let '(response, st) := handle (POST_photos photo2_data (clock 2%nat)) st in
  let passed := passed && print_result response 201 in
  match json_id response with
  | None => (false, st)
  | Some photo2_id =>
  let '(response, st) := handle (POST_photos photo3_data (clock 3%nat)) st in
  let passed := passed && print_result response 201 in
  match json_id response with
  | None => (false, st)
  | Some photo3_id =>
      test_api_read_update clock passed photo1_id photo2_id photo3_id st
  end
  end
  end.

End test_api.

(** ** Checks on concrete inputs *)

Example str_int_examples :
  str_int 999 = "999" ∧ str_int 0 = "0" ∧ str_int (-5) = "-5".
Proof. repeat split; reflexivity. Qed.

Example scenario_list :
  ids (list_photos None three_photos) = [1; 2; 3] ∧
  ids (list_photos (Some "nature") three_photos) = [1; 3].
Proof. split; reflexivity. Qed.

Example scenario_delete :
  let st := (delete_photo 3 three_photos).2 in
  ids (list_photos None st) = [1; 2] ∧
  get_photo 3 st = Raise (not_found 3) ∧
  (delete_photo 999 st).1 =
    Raise {| status_code := 404; detail := "Photo with id 999 not found" |}.
Proof. repeat split; reflexivity. Qed.

(** ** The lookup loop *)

Lemma find_photo_Some photo_id db i p :
  find_photo photo_id db = Some (i, p) →
  db !! i = Some p ∧ PhotoResponse.id p = photo_id ∧
  ∀ j q, db !! j = Some q → (j < i)%nat → PhotoResponse.id q ≠ photo_id.
Proof. unfold find_photo. intros H. by apply list_find_Some in H. Qed.

Lemma find_photo_None photo_id db :
  find_photo photo_id db = None ↔ photo_id ∉ ids db.
Proof.
  unfold find_photo, ids. rewrite list_find_None, Forall_forall.
  rewrite list_elem_of_fmap. split.
  - intros H (p & -> & Hp). by apply (H p).
  - intros H p Hp Heq. apply H. by exists p.
Qed.

Lemma find_photo_is_Some photo_id db :
  photo_id ∈ ids db → is_Some (find_photo photo_id db).
Proof.
  intros H. destruct (find_photo photo_id db) eqn:E; [done |].
  by apply find_photo_None in E.
Qed.

(** With distinct ids the first record with an id is the only one. *)
Lemma find_photo_lookup photo_id db i p :
  NoDup (ids db) → db !! i = Some p → PhotoResponse.id p = photo_id →
  find_photo photo_id db = Some (i, p).
Proof.
  intros Hnd Hi Hid.
  destruct (find_photo_is_Some photo_id db) as [[j q] Hj].
  { apply list_elem_of_fmap. exists p. split; [done |].
    by apply list_elem_of_lookup_2 in Hi. }
  rewrite Hj. apply find_photo_Some in Hj as (Hq & Hidq & _).
  assert (j = i) as ->.
  { eapply NoDup_lookup; [exact Hnd | |]; unfold ids;
      rewrite list_lookup_fmap; [rewrite Hq | rewrite Hi]; simpl;
      by rewrite ?Hidq, ?Hid. }
  congruence.
Qed.

(** ** Effect of one request on the counter *)

Lemma handle_counter req st :
  (created_id (handle req st).1 = Some (photo_id_counter st) ∧
   photo_id_counter (handle req st).2 = photo_id_counter st + 1) ∨
  (created_id (handle req st).1 = None ∧
   photo_id_counter (handle req st).2 = photo_id_counter st).
Proof.
  destruct req as [| now | tag | photo_id | b now | photo_id b | photo_id];
    simpl; try (by right).
  - right. unfold get_photo.
    by destruct (find_photo photo_id (photos_db st)) as [[??]|].
  - destruct (validate b); [by left | by right].
  - right. destruct (validate b) as [photo|]; [| done].
    unfold update_photo.
    by destruct (find_photo photo_id (photos_db st)) as [[??]|].
  - right. unfold delete_photo.
    by destruct (find_photo photo_id (photos_db st)) as [[??]|].
Qed.

Lemma run_cons req reqs st :
  run (req :: reqs) st =
    ((handle req st).1 :: (run reqs (handle req st).2).1,
     (run reqs (handle req st).2).2).
Proof.
  cbn [run]. destruct (handle req st) as [resp st1]. cbn [fst snd].
  by destruct (run reqs st1) as [resps st2].
Qed.

Lemma run_app reqs1 reqs2 st :
  run (reqs1 ++ reqs2) st =
    ((run reqs1 st).1 ++ (run reqs2 (run reqs1 st).2).1,
     (run reqs2 (run reqs1 st).2).2).
Proof.
  revert st. induction reqs1 as [| req reqs1 IH]; intros st.
  - simpl. by destruct (run reqs2 st).
  - rewrite <- app_comm_cons, !run_cons, IH. done.
Qed.

Lemma run_created_ids reqs st :
  let n := Z.of_nat (length (created_ids (run reqs st).1)) in
  created_ids (run reqs st).1 = seqZ (photo_id_counter st) n ∧
  photo_id_counter (run reqs st).2 = photo_id_counter st + n.
Proof.
  revert st. induction reqs as [| req reqs IH]; intros st.
  - simpl. split; [done | lia].
  - rewrite run_cons. cbn [fst snd]. unfold created_ids in *.
    cbn [omap list_omap].
    specialize (IH (handle req st).2). cbn zeta in IH.
    destruct IH as [IHids IHc].
    destruct (handle_counter req st) as [[-> Hc] | [-> Hc]];
      cbn [length]; rewrite Hc in IHids, IHc.
    + split; [| lia].
      rewrite Nat2Z.inj_succ, seqZ_cons by lia.
      f_equal. rewrite IHids at 1. f_equal. lia.
    + done.
Qed.

(** ** The registry invariant *)

Lemma initial_ok : registry_ok initial.
Proof. split; [apply NoDup_nil_2 | apply Forall_nil_2]. Qed.

Lemma create_photo_ok photo now st :
  registry_ok st → registry_ok (create_photo photo now st).2.
Proof.
  intros [Hnd Hlt]. unfold registry_ok, ids in *. simpl.
  rewrite fmap_app. simpl. split.
  - apply NoDup_app. split; [done |]. split; [| apply NoDup_singleton].
    intros x Hx Hx'. apply list_elem_of_singleton in Hx'. subst x.
    rewrite Forall_forall in Hlt. specialize (Hlt _ Hx). lia.
  - apply Forall_app. split.
    + eapply Forall_impl; [exact Hlt |]. simpl. intros; lia.
    + apply Forall_singleton. lia.
Qed.

(** Replacing a record by one with the same id keeps the list of ids. *)
Lemma update_photo_ids photo_id photo st :
  ids (photos_db (update_photo photo_id photo st).2) = ids (photos_db st).
Proof.
  unfold update_photo.
  destruct (find_photo photo_id (photos_db st)) as [[i p]|] eqn:E; [| done].
  apply find_photo_Some in E as (Hi & Hid & _). simpl. unfold ids.
  rewrite list_fmap_insert. simpl. apply list_insert_id.
  by rewrite list_lookup_fmap, Hi, <- Hid.
Qed.

Lemma update_photo_counter photo_id photo st :
  photo_id_counter (update_photo photo_id photo st).2 = photo_id_counter st.
Proof.
  unfold update_photo.
  by destruct (find_photo photo_id (photos_db st)) as [[i p]|].
Qed.

Lemma update_photo_ok photo_id photo st :
  registry_ok st → registry_ok (update_photo photo_id photo st).2.
Proof.
  unfold registry_ok. by rewrite update_photo_ids, update_photo_counter.
Qed.

Lemma delete_photo_ok photo_id st :
  registry_ok st → registry_ok (delete_photo photo_id st).2.
Proof.
  intros [Hnd Hlt]. unfold delete_photo.
  destruct (find_photo photo_id (photos_db st)) as [[i p]|]; [| done].
  unfold registry_ok, ids in *. simpl. rewrite list_fmap_delete. split.
  - eapply sublist_NoDup; [exact Hnd | apply sublist_delete].
  - rewrite Forall_forall in *. intros x Hx. apply Hlt.
    eapply elem_of_sublist; [exact Hx | apply sublist_delete].
Qed.

Lemma handle_ok req st : registry_ok st → registry_ok (handle req st).2.
Proof.
  intros Hok.
  destruct req as [| now | tag | photo_id | b now | photo_id b | photo_id];
    simpl; try done.
  - destruct (validate b) as [photo|]; [| done].
    by apply (create_photo_ok photo now).
  - destruct (validate b) as [photo|]; [| done].
    generalize (update_photo_ok photo_id photo st Hok).
    by destruct (update_photo photo_id photo st).
  - generalize (delete_photo_ok photo_id st Hok).
    by destruct (delete_photo photo_id st).
Qed.

Lemma run_ok reqs st : registry_ok st → registry_ok (run reqs st).2.
Proof.
  revert st. induction reqs as [| req reqs IH]; intros st Hok; [done |].
  rewrite run_cons. simpl. by apply IH, handle_ok.
Qed.

Lemma reachable_ok st : reachable st → registry_ok st.
Proof. intros [reqs <-]. apply run_ok, initial_ok. Qed.

Lemma reachable_initial : reachable initial.
Proof. by exists []. Qed.

Lemma reachable_run reqs st : reachable st → reachable (run reqs st).2.
Proof.
  intros [reqs0 <-]. exists (reqs0 ++ reqs). by rewrite run_app.
Qed.

(** Ids in the collection after a request were there before, or are the
    id the request created. *)
Lemma handle_ids req st x :
  x ∈ ids (photos_db (handle req st).2) →
  x ∈ ids (photos_db st) ∨ created_id (handle req st).1 = Some x.
Proof.
  destruct req as [| now | tag | photo_id | b now | photo_id b | photo_id];
    simpl; try (by left).
  - destruct (validate b) as [photo|]; [| by left]. simpl.
    unfold ids. rewrite fmap_app, elem_of_app. simpl.
    intros [H | H]; [by left | right].
    apply list_elem_of_singleton in H. by subst x.
  - destruct (validate b) as [photo|]; [| by left].
    generalize (update_photo_ids photo_id photo st).
    destruct (update_photo photo_id photo st) as [r st']. simpl.
    intros ->. by left.
  - unfold delete_photo.
    destruct (find_photo photo_id (photos_db st)) as [[i p]|]; [| by left].
    simpl. intros H. left. unfold ids in *.
    rewrite list_fmap_delete in H.
    eapply elem_of_sublist; [exact H | apply sublist_delete].
Qed.

Lemma run_ids reqs st x :
  x ∈ ids (photos_db (run reqs st).2) →
  x ∈ ids (photos_db st) ∨ x ∈ created_ids (run reqs st).1.
Proof.
  revert st. induction reqs as [| req reqs IH]; intros st; [by left |].
  rewrite run_cons. cbn [fst snd]. intros H.
  unfold created_ids in *. cbn [omap list_omap].
  destruct (IH _ H) as [H1 | H1].
  - destruct (handle_ids _ _ _ H1) as [H2 | H2]; [by left | right].
    rewrite H2. apply list_elem_of_here.
  - right. destruct (created_id (handle req st).1); [| done].
    by apply list_elem_of_further.
Qed.

(** ** Identifier assignment *)

(** What a request does to the counter, told from the request: a create
    call with a valid body reports the counter as the new id and adds 1,
    any other request reports no new id and keeps the counter. *)
Lemma handle_create req st :
  (is_create req →
   created_id (handle req st).1 = Some (photo_id_counter st) ∧
   photo_id_counter (handle req st).2 = photo_id_counter st + 1) ∧
  (¬ is_create req →
   created_id (handle req st).1 = None ∧
   photo_id_counter (handle req st).2 = photo_id_counter st).
Proof.
  destruct (handle_counter req st) as [Hyes | Hno].
  - split; [done |]. intros Hnot. exfalso. apply Hnot.
    destruct Hyes as [Hcreated _]. revert Hcreated.
    destruct req as [| now | tag | photo_id | b now | photo_id b | photo_id];
      cbn [is_create handle]; try done.
    + unfold get_photo.
      by destruct (find_photo photo_id (photos_db st)) as [[??]|].
    + by destruct (validate b).
    + destruct (validate b) as [photo|]; [| done]. unfold update_photo.
      by destruct (find_photo photo_id (photos_db st)) as [[??]|].
    + unfold delete_photo.
      by destruct (find_photo photo_id (photos_db st)) as [[??]|].
  - split; [| done]. intros Hc. exfalso.
    destruct Hno as [Hcreated _]. revert Hcreated.
    destruct req as [| now | tag | photo_id | b now | photo_id b | photo_id];
      cbn [is_create] in Hc; try done.
    destruct Hc as [photo Hv]. cbn [handle]. by rewrite Hv.
Qed.

Lemma run_create_count reqs st :
  let n := Z.of_nat (length (filter is_create reqs)) in
  created_ids (run reqs st).1 = seqZ (photo_id_counter st) n ∧
  photo_id_counter (run reqs st).2 = photo_id_counter st + n.
Proof.
  revert st. induction reqs as [| req reqs IH]; intros st.
  - cbn. split; [done | lia].
  - rewrite run_cons. cbn [fst snd]. rewrite filter_cons.
    unfold created_ids in *. cbn [omap list_omap].
    destruct (IH (handle req st).2) as [IHids IHc]. cbn zeta in *.
    destruct (handle_create req st) as [Hyes Hno].
    destruct (decide (is_create req)) as [Hc | Hc].
    + destruct (Hyes Hc) as [-> Hcount]. rewrite Hcount in IHids, IHc.
      cbn [length]. rewrite Nat2Z.inj_succ, seqZ_cons by lia.
      rewrite Z.pred_succ. split; [by rewrite IHids | lia].
    + destruct (Hno Hc) as [-> Hcount]. rewrite Hcount in IHids, IHc.
      done.
Qed.

(** C1. The counter starts at 1.  [create_photo] gives the new record the
    current counter value as id and adds exactly 1 to the counter, and a
    POST with a valid body is answered 201 with that record.  A request
    adds 1 to the counter exactly when it is such a create call (and then
    reports the previous counter value as the new id); every other
    request, a delete or a rejected create among them, reports no new id
    and leaves the counter unchanged.  Hence along every run from the
    initial state the ids returned by the create calls with a valid body
    are 1, 2, ..., n in this order, where n is the number of these calls,
    whatever other requests are interleaved, and the counter ends at
    1 + n. *)
Theorem create_ids_consecutive :
  photo_id_counter initial = 1 ∧
  (∀ photo now st,
     PhotoResponse.id (create_photo photo now st).1 = photo_id_counter st ∧
     photo_id_counter (create_photo photo now st).2 =
       photo_id_counter st + 1) ∧
  (∀ b photo now st,
     validate b = Some photo →
     handle (POST_photos b now) st =
       ({| http_status := 201;
           body := OnePhoto (create_photo photo now st).1 |},
        (create_photo photo now st).2)) ∧
  (∀ req st,
     is_create req →
     created_id (handle req st).1 = Some (photo_id_counter st) ∧
     photo_id_counter (handle req st).2 = photo_id_counter st + 1) ∧
  (∀ req st,
     ¬ is_create req →
     created_id (handle req st).1 = None ∧
     photo_id_counter (handle req st).2 = photo_id_counter st) ∧
  (∀ req st,
     photo_id_counter (handle req st).2 =
       photo_id_counter st +
         match created_id (handle req st).1 with
         | Some _ => 1
         | None => 0
         end) ∧
  (∀ photo_id st,
     photo_id_counter (delete_photo photo_id st).2 = photo_id_counter st) ∧
  (∀ reqs,
     let n := Z.of_nat (length (filter is_create reqs)) in
     created_ids (run reqs initial).1 = seqZ 1 n ∧
     photo_id_counter (run reqs initial).2 = 1 + n) ∧
  (∀ reqs,
     let n := Z.of_nat (length (created_ids (run reqs initial).1)) in
     created_ids (run reqs initial).1 = seqZ 1 n ∧
     photo_id_counter (run reqs initial).2 = 1 + n).
Proof.
  split; [done |]. split; [done |]. split.
  { intros b photo now st Hv. cbn [handle]. by rewrite Hv. }
  split; [intros req st; apply handle_create |].
  split; [intros req st; apply handle_create |].
  split; [| split; [| split]].
  - intros req st.
    destruct (handle_counter req st) as [[-> ->] | [-> ->]]; lia.
  - intros photo_id st. unfold delete_photo.
    by destruct (find_photo photo_id (photos_db st)) as [[i p]|].
  - intros reqs. apply (run_create_count reqs initial).
  - intros reqs. apply (run_created_ids reqs initial).
Qed.

Lemma create_ids_consecutive_witness :
  let rejected := {| body_title := Missing; body_description := Missing;
                     body_url := Given "u"; body_tags := Missing |} in
  let reqs := [POST_photos photo1 "t1"; DELETE_photo 1;
               POST_photos rejected "t2"; POST_photos photo2 "t3";
               GET_photos None; DELETE_photo 2; POST_photos photo3 "t4"] in
  is_create (POST_photos photo1 "t1") ∧
  ¬ is_create (POST_photos rejected "t2") ∧
  ¬ is_create (DELETE_photo 1) ∧
  length (filter is_create reqs) = 3%nat ∧
  created_ids (run reqs initial).1 = [1; 2; 3] ∧
  photo_id_counter (run reqs initial).2 = 4 ∧
  created_id (handle (POST_photos photo1 "t1") three_photos).1 = Some 4 ∧
  photo_id_counter (handle (POST_photos rejected "t2") three_photos).2 = 4.
Proof.
  intros rejected reqs.
  destruct create_ids_consecutive
    as (_ & _ & _ & Hyes & Hno & _ & _ & Hrun & _).
  assert (is_create (POST_photos photo1 "t1")) as H1
    by (eexists; reflexivity).
  assert (¬ is_create (POST_photos rejected "t2")) as H2
    by (by intros [? ?]).
  assert (¬ is_create (DELETE_photo 1)) as H3 by (by intros ?).
  split; [exact H1 |]. split; [exact H2 |]. split; [exact H3 |].
  split; [reflexivity |].
  destruct (Hrun reqs) as [Hids Hc].
  split; [exact Hids |]. split; [exact Hc |].
  split; [exact (proj1 (Hyes _ three_photos H1)) |].
  exact (proj2 (Hno _ three_photos H2)).
Defined.

(** ** Failure leaves the registry alone *)

(** C2. Whenever a request is answered with a failure (404 NotFound from
    get, replace or delete; 422 ValidationError from create or replace),
    the collection and the counter are exactly what they were before the
    request, and every listing afterwards is what it was before. *)
Theorem failure_leaves_state req st :
  failed (handle req st).1 →
  (handle req st).2 = st ∧
  ∀ tag, list_photos tag (handle req st).2 = list_photos tag st.
Proof.
  intros Hf. cut ((handle req st).2 = st); [by intros -> |].
  revert Hf. unfold failed.
  destruct req as [| now | tag | photo_id | b now | photo_id b | photo_id];
    simpl; try done.
  - destruct (validate b) as [photo|]; [| done]. simpl. lia.
  - destruct (validate b) as [photo|]; [| done]. unfold update_photo.
    destruct (find_photo photo_id (photos_db st)) as [[i p]|]; [| done].
    simpl. lia.
  - unfold delete_photo.
    destruct (find_photo photo_id (photos_db st)) as [[i p]|]; [| done].
    simpl. lia.
Qed.

Lemma failure_leaves_state_witness :
  failed (handle (PUT_photo 999 photo1) three_photos).1 ∧
  (handle (PUT_photo 999 photo1) three_photos).2 = three_photos ∧
  ∀ tag, list_photos tag (handle (PUT_photo 999 photo1) three_photos).2
         = list_photos tag three_photos.
Proof.
  assert (failed (handle (PUT_photo 999 photo1) three_photos).1) as Hf
    by (left; reflexivity).
  split; [exact Hf |].
  exact (failure_leaves_state (PUT_photo 999 photo1) three_photos Hf).
Defined.

(** ** Replace *)

(** [photo.tags or []] is the list of the input, and the empty list when
    the input has none. *)
Lemma or_empty_default xs : or_empty xs = default [] xs.
Proof. by destruct xs as [[| x l] |]. Qed.

(** C3. When some record has the given id, [update_photo] succeeds on the
    record at some position [i] holding that id: the record it returns
    and stores has the title, description and url of the input and the
    tags of the input (the empty list when the input has no tags, which
    is also what [create_photo] stores for that input), the id and
    created_at of the record it replaces; it sits at the same position
    [i]; the collection keeps its length, all other positions and the
    counter. *)
Theorem update_photo_frame photo_id photo st :
  photo_id ∈ ids (photos_db st) →
  ∃ i existing updated st',
    update_photo photo_id photo st = (Return updated, st') ∧
    photos_db st !! i = Some existing ∧
    PhotoResponse.id existing = photo_id ∧
    PhotoResponse.id updated = PhotoResponse.id existing ∧
    PhotoResponse.created_at updated = PhotoResponse.created_at existing ∧
    PhotoResponse.title updated = Photo.title photo ∧
    PhotoResponse.description updated = Photo.description photo ∧
    PhotoResponse.url updated = Photo.url photo ∧
    PhotoResponse.tags updated = default [] (Photo.tags photo) ∧
    (∀ now, PhotoResponse.tags (create_photo photo now st).1 =
            default [] (Photo.tags photo)) ∧
    (∀ now, PhotoResponse.tags updated =
            PhotoResponse.tags (create_photo photo now st).1) ∧
    photos_db st' !! i = Some updated ∧
    length (photos_db st') = length (photos_db st) ∧
    (∀ j, j ≠ i → photos_db st' !! j = photos_db st !! j) ∧
    photo_id_counter st' = photo_id_counter st.
Proof.
  intros Hin. apply find_photo_is_Some in Hin as [[i existing] Hfind].
  unfold update_photo. rewrite Hfind.
  apply find_photo_Some in Hfind as (Hi & Hid & _).
  eexists i, existing, _, _. split; [reflexivity |].
  cbn [photos_db photo_id_counter create_photo fst PhotoResponse.id
       PhotoResponse.created_at PhotoResponse.title
       PhotoResponse.description PhotoResponse.url PhotoResponse.tags].
  do 7 (split; [done |]).
  split; [apply or_empty_default |].
  split; [intros _; apply or_empty_default |].
  split; [done |]. split; [| split; [| split; [| done]]].
  - apply list_lookup_insert_eq. by eapply lookup_lt_Some.
  - apply length_insert.
  - intros j Hj. by apply list_lookup_insert_ne.
Qed.

Lemma update_photo_frame_witness :
  let photo := Photo.mk "New" (Some "d") "u" (Some ["x"; "y"]) in
  2 ∈ ids (photos_db three_photos) ∧
  ∃ updated st',
    update_photo 2 photo three_photos = (Return updated, st') ∧
    updated = PhotoResponse.mk 2 "New" (Some "d") "u" ["x"; "y"]
                "2024-01-01T10:00:01" ∧
    photos_db st' !! 1%nat = Some updated ∧
    ids (photos_db st') = [1; 2; 3] ∧
    PhotoResponse.tags updated = default [] (Photo.tags photo).
Proof.
  intros photo.
  assert (2 ∈ ids (photos_db three_photos)) as Hin.
  { vm_compute. apply list_elem_of_further, list_elem_of_here. }
  split; [exact Hin |].
  destruct (update_photo_frame 2 photo three_photos Hin)
    as (i & existing & updated & st' & Hupd & _ & _ & _ & _ & _ & _ & _ &
        Htags & _).
  exists updated, st'. split; [exact Hupd |].
  vm_compute in Hupd. injection Hupd as <- <-.
  split; [reflexivity |]. split; [reflexivity |]. split; [reflexivity |].
  exact Htags.
Defined.

(** ** Listing *)

Lemma truthy_nonempty T : T ≠ "" → truthy (Some T) = true.
Proof.
  intros H. simpl. apply negb_true_iff, String.eqb_neq. exact H.
Qed.

Lemma filter_none {A} (P : A → Prop) `{∀ x, Decision (P x)} (l : list A) :
  (∀ x, x ∈ l → ¬ P x) → filter P l = [].
Proof.
  induction l as [| x l IH]; intros Hnone; [done |].
  rewrite filter_cons_False by (apply Hnone, list_elem_of_here).
  apply IH. intros y Hy. by apply Hnone, list_elem_of_further.
Qed.

(** C4 as stated fails for the empty tag: on the three photos of the
    scenario, none of which carries the tag [""], listing with [tag=""]
    does not return the records whose tags contain [""] (there are none)
    but all three records. *)
Lemma list_photos_empty_tag_not_filter :
  list_photos (Some "") three_photos ≠
    filter (λ p, "" ∈ PhotoResponse.tags p) (photos_db three_photos).
Proof. vm_compute. discriminate. Qed.

(** C4, amended. For every non-empty tag [T], [list_photos] with that tag
    returns exactly the records of the collection whose tags contain [T]:
    it is the collection filtered by that test, so a record is in the
    answer if and only if it is in the collection and carries [T]; the
    answer keeps the records in collection order; and it is the empty
    list, not an error, when no record carries [T]. *)
Theorem list_photos_tag T st :
  T ≠ "" →
  list_photos (Some T) st =
    filter (λ p, T ∈ PhotoResponse.tags p) (photos_db st) ∧
  (∀ p, p ∈ list_photos (Some T) st ↔
        p ∈ photos_db st ∧ T ∈ PhotoResponse.tags p) ∧
  list_photos (Some T) st `sublist_of` photos_db st ∧
  ((∀ p, p ∈ photos_db st → T ∉ PhotoResponse.tags p) →
   (handle (GET_photos (Some T)) st).1 =
     {| http_status := 200; body := PhotoList [] |}).
Proof.
  intros HT.
  assert (list_photos (Some T) st =
            filter (λ p, T ∈ PhotoResponse.tags p) (photos_db st)) as Heq.
  { unfold list_photos. by rewrite truthy_nonempty. }
  split; [exact Heq |]. split; [| split].
  - intros p. rewrite Heq, list_elem_of_filter. tauto.
  - rewrite Heq. apply sublist_filter.
  - intros Hnone. cbn [handle render fst]. rewrite Heq. do 2 f_equal.
    by apply filter_none.
Qed.

Lemma list_photos_tag_witness :
  "nature" ≠ "" ∧
  ids (list_photos (Some "nature") three_photos) = [1; 3].
Proof.
  assert ("nature" ≠ "") as HT by discriminate.
  split; [exact HT |].
  destruct (list_photos_tag "nature" three_photos HT) as (-> & _).
  reflexivity.
Defined.

(** C10. Listing with the empty string as tag is listing without a tag:
    the answer is the whole collection in its order, so it contains every
    record, also those whose tags do not contain the empty string. *)
Theorem list_photos_empty_tag st :
  list_photos (Some "") st = list_photos None st ∧
  list_photos (Some "") st = photos_db st ∧
  handle (GET_photos (Some "")) st = handle (GET_photos None) st ∧
  (∀ p, p ∈ photos_db st → "" ∉ PhotoResponse.tags p →
        p ∈ list_photos (Some "") st).
Proof. repeat split. intros p Hp _. exact Hp. Qed.

(** ** Create, get, delete *)

(** With distinct ids all below the counter, the new record is the one
    found under the new id. *)
Lemma create_then_get_aux photo now st :
  registry_ok st →
  get_photo (PhotoResponse.id (create_photo photo now st).1)
            (create_photo photo now st).2
  = Return (create_photo photo now st).1.
Proof.
  intros Hok. destruct (create_photo_ok photo now st Hok) as [Hnd _].
  unfold get_photo. simpl in *.
  erewrite (find_photo_lookup _ _ (length (photos_db st)));
    [reflexivity | exact Hnd | | reflexivity].
  by rewrite list_lookup_middle.
Qed.

(** C5. In every state of the service, the record [create_photo] returns
    is the one [get_photo] returns right afterwards for the id of that
    record. *)
Theorem create_then_get photo now st :
  reachable st →
  get_photo (PhotoResponse.id (create_photo photo now st).1)
            (create_photo photo now st).2
  = Return (create_photo photo now st).1.
Proof. intros Hr. by apply create_then_get_aux, reachable_ok. Qed.

Lemma create_then_get_witness :
  reachable three_photos ∧
  get_photo 4 (create_photo (Photo.mk "t" None "u" None) "now"
                 three_photos).2
  = Return (PhotoResponse.mk 4 "t" None "u" [] "now").
Proof.
  assert (reachable three_photos) as Hr by (eexists; reflexivity).
  split; [exact Hr |].
  exact (create_then_get (Photo.mk "t" None "u" None) "now" three_photos Hr).
Defined.

(** What a successful [delete_photo] does to a collection with distinct
    ids. *)
Lemma delete_then_get_aux photo_id st r st' :
  NoDup (ids (photos_db st)) →
  delete_photo photo_id st = (Return r, st') →
  PhotoResponse.id (deleted_photo r) = photo_id ∧
  (photo_id ∉ ids (photos_db st')) ∧
  photo_id_counter st' = photo_id_counter st ∧
  photo_id ∈ ids (photos_db st).
Proof.
  intros Hnd Hdel. unfold delete_photo in Hdel.
  destruct (find_photo photo_id (photos_db st)) as [[i p]|] eqn:Hfind;
    [| done].
  injection Hdel as <- <-. simpl.
  apply find_photo_Some in Hfind as (Hi & Hid & _).
  pose proof (take_drop_middle _ _ _ Hi) as Hsplit.
  split; [done |]. split; [| split; [done |]].
  - rewrite delete_take_drop. rewrite <- Hsplit in Hnd. unfold ids in *.
    rewrite fmap_app, fmap_cons, Hid in Hnd. rewrite fmap_app.
    apply NoDup_app in Hnd as (_ & Hleft & Hright).
    apply NoDup_cons in Hright as [Hright _].
    rewrite elem_of_app. intros [H | H]; [| done].
    apply (Hleft _ H), list_elem_of_here.
  - apply list_elem_of_fmap. exists p. split; [done |].
    by apply list_elem_of_lookup_2 in Hi.
Qed.

(** C6. In every state of the service, when [delete_photo] succeeds the
    collection was [before ++ p :: after] with [p] the record of that id,
    the record handed back is [p], the collection becomes
    [before ++ after] (the other records, unchanged and in their order),
    the counter is unchanged, and [get_photo] for that id then raises the
    404 error. *)
Theorem delete_then_get photo_id st r st' :
  reachable st →
  delete_photo photo_id st = (Return r, st') →
  get_photo photo_id st' = Raise (not_found photo_id) ∧
  PhotoResponse.id (deleted_photo r) = photo_id ∧
  (photo_id ∉ ids (photos_db st')) ∧
  length (photos_db st) = S (length (photos_db st')) ∧
  photo_id_counter st' = photo_id_counter st ∧
  ∃ before after,
    photos_db st = before ++ deleted_photo r :: after ∧
    photos_db st' = before ++ after.
Proof.
  intros Hr Hdel. apply reachable_ok in Hr as [Hnd _].
  destruct (delete_then_get_aux photo_id st r st' Hnd Hdel)
    as (Hid & Hout & Hc & _).
  unfold delete_photo in Hdel.
  destruct (find_photo photo_id (photos_db st)) as [[i p]|] eqn:Hfind;
    [| done].
  injection Hdel as <- <-. simpl in *.
  apply find_photo_Some in Hfind as (Hi & _ & _).
  split; [| split; [done | split; [done | split; [| split; [done |]]]]].
  - unfold get_photo. simpl. apply find_photo_None in Hout. by rewrite Hout.
  - rewrite length_delete by eauto.
    apply lookup_lt_Some in Hi. lia.
  - exists (take i (photos_db st)), (drop (S i) (photos_db st)).
    split; [by rewrite take_drop_middle | apply delete_take_drop].
Qed.

Lemma delete_then_get_witness :
  reachable three_photos ∧
  get_photo 3 (delete_photo 3 three_photos).2 = Raise (not_found 3).
Proof.
  assert (reachable three_photos) as Hr by (eexists; reflexivity).
  split; [exact Hr |].
  destruct (delete_photo 3 three_photos) as [r st'] eqn:Hdel.
  destruct r as [r | e]; [| vm_compute in Hdel; discriminate].
  exact (proj1 (delete_then_get 3 three_photos r st' Hr Hdel)).
Defined.

(** ** Uniqueness of ids *)

(** C7. In every state reachable from the initial one, no two records of
    the collection share an id; and once [delete_photo] has removed the
    record of an id, no later create reports that id and no later state
    of the collection contains it, whatever requests follow. *)
Theorem ids_unique_never_reused st :
  reachable st →
  NoDup (ids (photos_db st)) ∧
  (∀ i j p q,
     photos_db st !! i = Some p → photos_db st !! j = Some q →
     PhotoResponse.id p = PhotoResponse.id q → i = j) ∧
  (∀ photo_id r st1 reqs,
     delete_photo photo_id st = (Return r, st1) →
     (photo_id ∉ created_ids (run reqs st1).1) ∧
     (photo_id ∉ ids (photos_db (run reqs st1).2))).
Proof.
  intros Hr. pose proof (reachable_ok _ Hr) as [Hnd Hlt].
  split; [exact Hnd |]. split.
  - intros i j p q Hp Hq Heq.
    eapply NoDup_lookup; [exact Hnd | |]; unfold ids;
      rewrite list_lookup_fmap; [rewrite Hp | rewrite Hq]; simpl;
      by rewrite ?Heq.
  - intros photo_id r st1 reqs Hdel.
    destruct (delete_then_get_aux photo_id st r st1 Hnd Hdel)
      as (Hid & Hout & Hc & Hin).
    assert (photo_id ∉ created_ids (run reqs st1).1) as Hfresh.
    { destruct (run_created_ids reqs st1) as [-> _].
      rewrite elem_of_seqZ, Hc. rewrite Forall_forall in Hlt.
      specialize (Hlt _ Hin). lia. }
    split; [exact Hfresh |].
    intros H. by destruct (run_ids _ _ _ H).
Qed.

Lemma ids_unique_never_reused_witness :
  reachable three_photos ∧
  NoDup (ids (photos_db three_photos)) ∧
  (3 ∉ created_ids
         (run [POST_photos minimal "later"]
              (delete_photo 3 three_photos).2).1).
Proof.
  assert (reachable three_photos) as Hr by (eexists; reflexivity).
  destruct (ids_unique_never_reused three_photos Hr) as (Hnd & _ & Hdel).
  split; [exact Hr |]. split; [exact Hnd |].
  destruct (delete_photo 3 three_photos) as [r st1] eqn:E.
  destruct r as [r | e]; [| vm_compute in E; discriminate].
  exact (proj1 (Hdel 3 r st1 [POST_photos minimal "later"] E)).
Defined.

(** ** Defaults of the optional fields *)

(** C8. A create request whose body supplies only a title and a url is
    accepted with status 201; the record in the response has no
    description and the empty list of tags (and the given title and
    url); that same record is the one appended to the collection and,
    in every state of the service, the one [get_photo] returns for its
    id afterwards. *)
Theorem create_minimal_defaults title url now st :
  reachable st →
  ∃ p st',
    handle (POST_photos {| body_title := Given title;
                           body_description := Missing;
                           body_url := Given url;
                           body_tags := Missing |} now) st
      = ({| http_status := 201; body := OnePhoto p |}, st') ∧
    PhotoResponse.description p = None ∧
    PhotoResponse.tags p = [] ∧
    PhotoResponse.title p = title ∧
    PhotoResponse.url p = url ∧
    photos_db st' = photos_db st ++ [p] ∧
    get_photo (PhotoResponse.id p) st' = Return p.
Proof.
  intros Hr. eexists _, _. split; [reflexivity |].
  repeat split.
  exact (create_then_get_aux (Photo.mk title None url (Some [])) now st
           (reachable_ok _ Hr)).
Qed.

Lemma create_minimal_defaults_witness :
  reachable initial ∧
  ∃ p, (handle (POST_photos minimal "2024-01-01T10:00:00") initial).1
         = {| http_status := 201; body := OnePhoto p |} ∧
       PhotoResponse.description p = None ∧ PhotoResponse.tags p = [].
Proof.
  split; [exact reachable_initial |].
  destruct (create_minimal_defaults "Minimal Photo"
              "https://example.com/minimal.jpg" "2024-01-01T10:00:00"
              initial reachable_initial)
    as (p & st' & Hh & Hd & Ht & _).
  exists p. unfold minimal. rewrite Hh. by repeat split.
Defined.

(** ** The NotFound error *)

(** C9. For an id that no record of the collection has, [get_photo],
    [update_photo] and [delete_photo] all raise the exception with status
    404 and detail "Photo with id <id> not found", the id written in
    decimal; the service answers the three requests with status 404 and
    that detail as body. *)
Theorem not_found_detail photo_id photo b st :
  photo_id ∉ ids (photos_db st) →
  validate b = Some photo →
  let msg := "Photo with id " +:+ str_int photo_id +:+ " not found" in
  let e := {| status_code := 404; detail := msg |} in
  let resp := {| http_status := 404; body := ErrorDetail msg |} in
  get_photo photo_id st = Raise e ∧
  (update_photo photo_id photo st).1 = Raise e ∧
  (delete_photo photo_id st).1 = Raise e ∧
  (handle (GET_photo photo_id) st).1 = resp ∧
  (handle (PUT_photo photo_id b) st).1 = resp ∧
  (handle (DELETE_photo photo_id) st).1 = resp.
Proof.
  intros Hout Hb. apply find_photo_None in Hout. simpl.
  unfold get_photo, update_photo, delete_photo. by rewrite Hb, Hout.
Qed.

Lemma not_found_detail_witness :
  (999 ∉ ids (photos_db three_photos)) ∧
  validate photo1 =
    Some (Photo.mk "Beach" None "https://example.com/1.jpg"
            (Some ["nature"; "beach"])) ∧
  (delete_photo 999 three_photos).1 =
    Raise {| status_code := 404; detail := "Photo with id 999 not found" |}.
Proof.
  assert (999 ∉ ids (photos_db three_photos)) as Hout.
  { apply find_photo_None. reflexivity. }
  split; [exact Hout |]. split; [reflexivity |].
  exact (proj1 (proj2 (proj2
           (not_found_detail 999 _ photo1 three_photos Hout eq_refl)))).
Defined.

(** * Further properties of the handlers of main.py *)

(** ** Lookup by id *)

Lemma get_photo_find photo_id st :
  get_photo photo_id st =
    match find_photo photo_id (photos_db st) with
    | Some ip => Return ip.2
    | None => Raise (not_found photo_id)
    end.
Proof.
  unfold get_photo.
  by destruct (find_photo photo_id (photos_db st)) as [[i p]|].
Qed.

Lemma get_photo_Return photo_id st p :
  get_photo photo_id st = Return p ↔
  ∃ i, find_photo photo_id (photos_db st) = Some (i, p).
Proof.
  unfold get_photo.
  destruct (find_photo photo_id (photos_db st)) as [[i q]|]; split.
  - intros [= ->]. by exists i.
  - by intros [j [= _ ->]].
  - done.
  - by intros [j ?].
Qed.

(** X1. In every state of the service [get_photo] returns a record
    exactly when that record is in the collection and has the requested
    id. *)
Theorem get_photo_spec photo_id st p :
  reachable st →
  (get_photo photo_id st = Return p ↔
   p ∈ photos_db st ∧ PhotoResponse.id p = photo_id).
Proof.
  intros Hr. apply reachable_ok in Hr as [Hnd _].
  rewrite get_photo_Return. split.
  - intros [i (Hi & Hid & _)%find_photo_Some]. split; [| done].
    by eapply list_elem_of_lookup_2.
  - intros [[i Hi]%list_elem_of_lookup_1 Hid]. exists i.
    by apply find_photo_lookup.
Qed.

Lemma get_photo_spec_witness :
  reachable three_photos ∧
  ∃ p, get_photo 2 three_photos = Return p ∧
       PhotoResponse.title p = "Peak" ∧ p ∈ photos_db three_photos.
Proof.
  assert (reachable three_photos) as Hr by (eexists; reflexivity).
  split; [exact Hr |]. eexists. split; [reflexivity |].
  split; [reflexivity |].
  eapply (proj1 (get_photo_spec 2 three_photos _ Hr)). reflexivity.
Defined.

(** ** Replace composed with the other handlers *)

Lemma find_photo_insert photo_id db i existing updated :
  find_photo photo_id db = Some (i, existing) →
  PhotoResponse.id updated = photo_id →
  find_photo photo_id (<[i := updated]> db) = Some (i, updated).
Proof.
  intros (Hi & Hid & Hfirst)%find_photo_Some Hu.
  apply list_find_Some. split; [| split; [done |]].
  - apply list_lookup_insert_eq. by eapply lookup_lt_Some.
  - intros j q Hj Hlt. rewrite list_lookup_insert_ne in Hj by lia.
    by eapply Hfirst.
Qed.

(** X2. In any state, when [update_photo] succeeds, [get_photo] for the
    same id returns right afterwards the record [update_photo] returned. *)
Theorem update_then_get photo_id photo st updated st' :
  update_photo photo_id photo st = (Return updated, st') →
  get_photo photo_id st' = Return updated.
Proof.
  unfold update_photo.
  destruct (find_photo photo_id (photos_db st)) as [[i existing]|] eqn:E;
    [| done].
  intros [= <- <-]. apply get_photo_Return. exists i. simpl.
  by apply (find_photo_insert _ _ _ existing).
Qed.

Lemma update_then_get_witness :
  ∃ updated,
    get_photo 2 (update_photo 2 (Photo.mk "New" None "u" None)
                   three_photos).2 = Return updated ∧
    PhotoResponse.title updated = "New" ∧
    PhotoResponse.created_at updated = "2024-01-01T10:00:01".
Proof.
  eexists. split; [| split].
  - eapply (update_then_get 2 (Photo.mk "New" None "u" None) three_photos).
    reflexivity.
  - reflexivity.
  - reflexivity.
Defined.

(** X3. Replace is last-writer-wins, in any state: replacing a record
    and then replacing it again gives the same answer and the same state
    as the second replace alone (the first leaves no trace, since it
    keeps the id, the position and created_at); in particular replacing
    twice with the same input is replacing once. *)
Theorem update_update photo_id photo1 photo2 st :
  update_photo photo_id photo2 (update_photo photo_id photo1 st).2 =
  update_photo photo_id photo2 st.
Proof.
  unfold update_photo at 2 3.
  destruct (find_photo photo_id (photos_db st)) as [[i existing]|] eqn:E.
  - cbn [snd]. unfold update_photo. cbn [photos_db photo_id_counter].
    erewrite find_photo_insert; [| exact E | done].
    cbn [PhotoResponse.created_at]. by rewrite list_insert_insert_eq.
  - cbn [snd]. unfold update_photo. by rewrite E.
Qed.

(** ** Delete composed with the other handlers *)

(** X4. In any state [delete_photo] succeeds exactly when [get_photo]
    does, hands back the very record [get_photo] returns, and its
    message is "Photo <id> deleted successfully" with the id in decimal. *)
Theorem delete_returns_get photo_id st r :
  (∃ st', delete_photo photo_id st = (Return r, st')) ↔
  get_photo photo_id st = Return (deleted_photo r) ∧
  message r = "Photo " +:+ str_int photo_id +:+ " deleted successfully".
Proof.
  unfold delete_photo, get_photo.
  destruct (find_photo photo_id (photos_db st)) as [[i p]|]; split.
  - by intros [st' [= <- _]].
  - intros [[= Hp] Hm]. eexists. do 2 f_equal. destruct r. simpl in *.
    by subst.
  - by intros [st' ?].
  - by intros [? _].
Qed.

(** X5. In every state of the service, once [delete_photo] has removed
    the record of an id, replacing or deleting that id raises the 404
    error and leaves the state as it is. *)
Theorem delete_then_update_delete photo_id photo st r st' :
  reachable st →
  delete_photo photo_id st = (Return r, st') →
  update_photo photo_id photo st' = (Raise (not_found photo_id), st') ∧
  delete_photo photo_id st' = (Raise (not_found photo_id), st').
Proof.
  intros Hr Hdel. apply reachable_ok in Hr as [Hnd _].
  destruct (delete_then_get_aux photo_id st r st' Hnd Hdel)
    as (_ & Hout%find_photo_None & _).
  unfold update_photo, delete_photo. by rewrite Hout.
Qed.

Lemma delete_then_update_delete_witness :
  reachable three_photos ∧
  (delete_photo 3 (delete_photo 3 three_photos).2).1 = Raise (not_found 3).
Proof.
  assert (reachable three_photos) as Hr by (eexists; reflexivity).
  split; [exact Hr |].
  destruct (delete_photo 3 three_photos) as [r st'] eqn:E.
  destruct r as [r | e]; [| vm_compute in E; discriminate].
  destruct (delete_then_update_delete 3 (Photo.mk "t" None "u" None)
              three_photos r st' Hr E) as [_ Hagain].
  cbn [snd]. by rewrite Hagain.
Defined.

(** ** Requests on one id leave the other ids alone *)

Lemma find_photo_cons photo_id p db :
  find_photo photo_id (p :: db) =
    if decide (PhotoResponse.id p = photo_id) then Some (0%nat, p)
    else prod_map S id <$> find_photo photo_id db.
Proof. done. Qed.

Lemma find_other_delete other db i p :
  db !! i = Some p → PhotoResponse.id p ≠ other →
  snd <$> find_photo other (delete i db) = snd <$> find_photo other db.
Proof.
  revert i. induction db as [| q db IH]; intros [| i] Hi Hne; try done.
  - injection Hi as ->. cbn [delete list_delete].
    rewrite find_photo_cons, decide_False by done.
    by destruct (find_photo other db) as [[??]|].
  - cbn [delete list_delete]. rewrite !find_photo_cons.
    case_decide; [done |].
    specialize (IH i Hi Hne).
    destruct (find_photo other (delete i db)) as [[??]|],
      (find_photo other db) as [[??]|]; simpl in *; congruence.
Qed.

Lemma find_other_insert other db i p q :
  db !! i = Some p → PhotoResponse.id p ≠ other →
  PhotoResponse.id q ≠ other →
  snd <$> find_photo other (<[i := q]> db) = snd <$> find_photo other db.
Proof.
  revert i. induction db as [| r db IH]; intros [| i] Hi Hp Hq; try done.
  - injection Hi as ->. cbn [insert list_insert].
    by rewrite !find_photo_cons, !decide_False by done.
  - cbn [insert list_insert]. rewrite !find_photo_cons.
    case_decide; [done |].
    specialize (IH i Hi Hp Hq).
    destruct (find_photo other (<[i := q]> db)) as [[??]|],
      (find_photo other db) as [[??]|]; simpl in *; congruence.
Qed.

Lemma find_other_snoc other db q :
  PhotoResponse.id q ≠ other →
  snd <$> find_photo other (db ++ [q]) = snd <$> find_photo other db.
Proof.
  intros Hq. induction db as [| r db IH]; cbn [app].
  - by rewrite find_photo_cons, decide_False.
  - rewrite !find_photo_cons. case_decide; [done |].
    destruct (find_photo other (db ++ [q])) as [[??]|],
      (find_photo other db) as [[??]|]; simpl in *; congruence.
Qed.

Lemma get_photo_snd other st st' :
  snd <$> find_photo other (photos_db st') =
    snd <$> find_photo other (photos_db st) →
  get_photo other st' = get_photo other st.
Proof.
  rewrite !get_photo_find.
  destruct (find_photo other (photos_db st')) as [[??]|],
    (find_photo other (photos_db st)) as [[??]|]; simpl; congruence.
Qed.

Lemma get_other_update photo_id other photo st :
  other ≠ photo_id →
  get_photo other (update_photo photo_id photo st).2 = get_photo other st.
Proof.
  intros Hne. unfold update_photo.
  destruct (find_photo photo_id (photos_db st)) as [[i p]|] eqn:E; [| done].
  apply find_photo_Some in E as (Hi & Hid & _).
  apply get_photo_snd. simpl.
  apply (find_other_insert _ _ _ p); simpl; congruence.
Qed.

Lemma get_other_delete photo_id other st :
  other ≠ photo_id →
  get_photo other (delete_photo photo_id st).2 = get_photo other st.
Proof.
  intros Hne. unfold delete_photo.
  destruct (find_photo photo_id (photos_db st)) as [[i p]|] eqn:E; [| done].
  apply find_photo_Some in E as (Hi & Hid & _).
  apply get_photo_snd. simpl.
  apply (find_other_delete _ _ _ p); congruence.
Qed.

Lemma get_other_create other photo now st :
  other ≠ photo_id_counter st →
  get_photo other (create_photo photo now st).2 = get_photo other st.
Proof.
  intros Hc. apply get_photo_snd. simpl.
  apply find_other_snoc. simpl. congruence.
Qed.

(** X6. In any state, replacing or deleting the record of one id does
    not change what [get_photo] answers for any other id, and creating a
    photo does not change what it answers for any id other than the
    counter value the new photo receives. *)
Theorem get_photo_frame photo_id other photo now st :
  other ≠ photo_id →
  get_photo other (update_photo photo_id photo st).2 = get_photo other st ∧
  get_photo other (delete_photo photo_id st).2 = get_photo other st ∧
  (other ≠ photo_id_counter st →
   get_photo other (create_photo photo now st).2 = get_photo other st).
Proof.
  intros Hne. split; [| split].
  - by apply get_other_update.
  - by apply get_other_delete.
  - apply get_other_create.
Qed.

Lemma get_photo_frame_witness :
  1 ≠ 2 ∧
  get_photo 1 (delete_photo 2 three_photos).2 = get_photo 1 three_photos ∧
  get_photo 1 (update_photo 2 (Photo.mk "t" None "u" None)
                 three_photos).2 = get_photo 1 three_photos.
Proof.
  assert (1 ≠ 2) as Hne by lia.
  destruct (get_photo_frame 2 1 (Photo.mk "t" None "u" None) "now"
              three_photos Hne) as (Hu & Hd & _).
  split; [exact Hne |]. split; [exact Hd | exact Hu].
Defined.

(** ** A record keeps its created_at as long as it lives *)

Lemma handle_counter_le req st :
  photo_id_counter st ≤ photo_id_counter (handle req st).2.
Proof. destruct (handle_counter req st) as [[_ ->] | [_ ->]]; lia. Qed.

Lemma update_created_at photo_id photo st q :
  get_photo photo_id (update_photo photo_id photo st).2 = Return q →
  ∃ p, get_photo photo_id st = Return p ∧
       PhotoResponse.created_at p = PhotoResponse.created_at q.
Proof.
  unfold update_photo.
  destruct (find_photo photo_id (photos_db st)) as [[i p]|] eqn:E.
  - cbn [snd]. intros Hq. exists p. split.
    + apply get_photo_Return. by exists i.
    + apply get_photo_Return in Hq as [j Hj]. cbn [photos_db] in Hj.
      erewrite find_photo_insert in Hj; [| exact E | done].
      by injection Hj as _ <-.
  - cbn [snd]. intros ->. by eexists.
Qed.

Lemma delete_no_get photo_id st q :
  NoDup (ids (photos_db st)) →
  get_photo photo_id (delete_photo photo_id st).2 = Return q →
  get_photo photo_id st = Return q.
Proof.
  intros Hnd. destruct (delete_photo photo_id st) as [r st'] eqn:E.
  destruct r as [r | e].
  - destruct (delete_then_get_aux _ _ _ _ Hnd E)
      as (_ & Hout%find_photo_None & _).
    cbn [snd]. rewrite get_photo_find, Hout. done.
  - unfold delete_photo in E.
    destruct (find_photo photo_id (photos_db st)) as [[??]|]; [done |].
    by injection E as _ <-.
Qed.

(** One request back: a record found after the request under an id below
    the counter was there before, with the same created_at. *)
Lemma handle_created_at req st photo_id q :
  registry_ok st → photo_id < photo_id_counter st →
  get_photo photo_id (handle req st).2 = Return q →
  ∃ p, get_photo photo_id st = Return p ∧
       PhotoResponse.created_at p = PhotoResponse.created_at q.
Proof.
  intros [Hnd _] Hlt.
  assert (get_photo photo_id st = Return q →
          ∃ p, get_photo photo_id st = Return p ∧
               PhotoResponse.created_at p = PhotoResponse.created_at q)
    as Hsame by (intros Hq; by exists q).
  destruct req as [| now | tag | other | b now | other b | other];
    cbn [handle]; try exact Hsame.
  - destruct (validate b) as [photo|]; [| exact Hsame].
    intros Hq. apply Hsame.
    rewrite <- (get_other_create photo_id photo now st) by lia. exact Hq.
  - destruct (validate b) as [photo|]; [| exact Hsame].
    destruct (decide (photo_id = other)) as [-> | Hne].
    + generalize (update_created_at other photo st q).
      by destruct (update_photo other photo st).
    + intros Hq. apply Hsame.
      rewrite <- (get_other_update other photo_id photo st Hne).
      revert Hq. by destruct (update_photo other photo st).
  - destruct (decide (photo_id = other)) as [-> | Hne].
    + generalize (delete_no_get other st q Hnd).
      destruct (delete_photo other st). cbn [snd]. auto.
    + intros Hq. apply Hsame.
      rewrite <- (get_other_delete other photo_id st Hne).
      revert Hq. by destruct (delete_photo other st).
Qed.

Lemma run_created_at reqs st photo_id q :
  registry_ok st → photo_id < photo_id_counter st →
  get_photo photo_id (run reqs st).2 = Return q →
  ∃ p, get_photo photo_id st = Return p ∧
       PhotoResponse.created_at p = PhotoResponse.created_at q.
Proof.
  revert st. induction reqs as [| req reqs IH]; intros st Hok Hlt.
  - simpl. intros ->. by eexists.
  - rewrite run_cons. cbn [snd]. intros Hq.
    destruct (IH (handle req st).2) with (3 := Hq) as (p1 & Hp1 & Heq1).
    { by apply handle_ok. }
    { pose proof (handle_counter_le req st). lia. }
    destruct (handle_created_at req st photo_id p1 Hok Hlt Hp1)
      as (p & Hp & Heq).
    exists p. split; [done | congruence].
Qed.

(** X7. In every state of the service, if [get_photo] returns a record
    for an id now and, after any further requests, returns a record for
    that id again, the two records have the same created_at: no sequence
    of creates, replaces and deletes changes the creation time stored
    under an id. *)
Theorem created_at_stable reqs st photo_id p q :
  reachable st →
  get_photo photo_id st = Return p →
  get_photo photo_id (run reqs st).2 = Return q →
  PhotoResponse.created_at q = PhotoResponse.created_at p.
Proof.
  intros Hr Hp Hq. pose proof (reachable_ok _ Hr) as Hok.
  assert (photo_id < photo_id_counter st) as Hlt.
  { destruct Hok as [_ Hlt]. rewrite Forall_forall in Hlt. apply Hlt.
    apply get_photo_Return in Hp as [i (Hi & Hid & _)%find_photo_Some].
    apply list_elem_of_fmap. exists p. split; [done |].
    by eapply list_elem_of_lookup_2. }
  destruct (run_created_at reqs st photo_id q Hok Hlt Hq) as (p' & Hp' & <-).
  congruence.
Qed.

Lemma created_at_stable_witness :
  let later := [PUT_photo 2 photo1; DELETE_photo 1;
                POST_photos minimal "later"] in
  let p := PhotoResponse.mk 2 "Peak" (Some "Snow")
             "https://example.com/2.jpg" ["mountain"]
             "2024-01-01T10:00:01" in
  let q := PhotoResponse.mk 2 "Beach" None
             "https://example.com/1.jpg" ["nature"; "beach"]
             "2024-01-01T10:00:01" in
  reachable three_photos ∧
  get_photo 2 three_photos = Return p ∧
  get_photo 2 (run later three_photos).2 = Return q ∧
  PhotoResponse.created_at q = PhotoResponse.created_at p.
Proof.
  intros later p q.
  assert (reachable three_photos) as Hr by (eexists; reflexivity).
  split; [exact Hr |]. split; [reflexivity |]. split; [reflexivity |].
  exact (created_at_stable later three_photos 2 p q Hr eq_refl eq_refl).
Defined.

(** ** What one request does to the list of ids *)

Lemma created_ids_cons resp resps :
  created_ids (resp :: resps) =
    match created_id resp with
    | Some n => n :: created_ids resps
    | None => created_ids resps
    end.
Proof. done. Qed.

Lemma deleted_ids_cons resp resps :
  deleted_ids (resp :: resps) =
    match deleted_id resp with
    | Some n => n :: deleted_ids resps
    | None => deleted_ids resps
    end.
Proof. done. Qed.

(** A request appends the counter value to the ids (a create), removes
    one position from them (a delete that succeeds), or keeps them. *)
Lemma handle_ids_cases req st :
  let resp := (handle req st).1 in
  let st' := (handle req st).2 in
  (created_id resp = Some (photo_id_counter st) ∧ deleted_id resp = None ∧
   ids (photos_db st') = ids (photos_db st) ++ [photo_id_counter st]) ∨
  (created_id resp = None ∧
   ∃ i x, deleted_id resp = Some x ∧ ids (photos_db st) !! i = Some x ∧
          ids (photos_db st') = delete i (ids (photos_db st))) ∨
  (created_id resp = None ∧ deleted_id resp = None ∧
   ids (photos_db st') = ids (photos_db st)).
Proof.
  destruct req as [| now | tag | photo_id | b now | photo_id b | photo_id];
    cbn [handle]; try (by right; right).
  - right; right. unfold get_photo.
    by destruct (find_photo photo_id (photos_db st)) as [[??]|].
  - destruct (validate b) as [photo|]; [left | by right; right].
    cbn. unfold ids. by rewrite fmap_app.
  - right; right. destruct (validate b) as [photo|]; [| done].
    generalize (update_photo_ids photo_id photo st). unfold update_photo.
    by destruct (find_photo photo_id (photos_db st)) as [[??]|].
  - unfold delete_photo.
    destruct (find_photo photo_id (photos_db st)) as [[i p]|] eqn:E;
      [right; left | by right; right].
    apply find_photo_Some in E as (Hi & _ & _). cbn. split; [done |].
    exists i, (PhotoResponse.id p). split; [done |]. unfold ids.
    by rewrite list_lookup_fmap, Hi, list_fmap_delete.
Qed.

(** ** Ids grow along the collection *)

Lemma initial_sorted : registry_sorted initial.
Proof.
  split; [| split]; [| apply Forall_nil_2 | done].
  intros i j x y Hx. cbn in Hx. discriminate Hx.
Qed.

Lemma handle_sorted req st :
  registry_sorted st → registry_sorted (handle req st).2.
Proof.
  intros (Hinc & Hb & Hc). unfold registry_sorted.
  pose proof (handle_counter req st) as Hcount.
  destruct (handle_ids_cases req st)
    as [(Hcr & _ & ->) | [(Hcr & i & x & _ & Hi & ->) | (Hcr & _ & ->)]];
    rewrite Hcr in Hcount;
    destruct Hcount as [[? Hcount] | [? Hcount]]; try done;
    rewrite Hcount; clear Hcount.
  - rewrite Forall_forall in Hb. split; [| split; [| lia]].
    + intros i j x y [[_ Hx] | [-> <-]]%lookup_snoc_Some
                     [[Hj Hy] | [-> <-]]%lookup_snoc_Some Hlt.
      * by eapply Hinc.
      * apply list_elem_of_lookup_2 in Hx. specialize (Hb _ Hx). lia.
      * lia.
      * lia.
    + apply Forall_app. split.
      * apply Forall_forall. intros x Hx. specialize (Hb _ Hx). lia.
      * apply Forall_singleton. lia.
  - split; [| split; [| done]].
    + intros j k y z Hy Hz Hlt. rewrite list_lookup_delete in Hy, Hz.
      eapply Hinc; [exact Hy | exact Hz |].
      repeat case_decide; lia.
    + rewrite Forall_forall in *. intros y Hy. apply Hb.
      eapply elem_of_sublist; [exact Hy | apply sublist_delete].
  - done.
Qed.

Lemma run_sorted reqs st : registry_sorted st → registry_sorted (run reqs st).2.
Proof.
  revert st. induction reqs as [| req reqs IH]; intros st Hs; [done |].
  rewrite run_cons. cbn [snd]. by apply IH, handle_sorted.
Qed.

(** X8. In every state of the service the ids grow strictly along the
    collection (a record further down the list has a larger id, so
    insertion order is id order) and every stored id lies between 1 and
    the counter, which it never reaches. *)
Theorem ids_increasing st :
  reachable st →
  (∀ i j p q,
     photos_db st !! i = Some p → photos_db st !! j = Some q →
     (i < j)%nat → PhotoResponse.id p < PhotoResponse.id q) ∧
  (∀ p, p ∈ photos_db st →
        1 ≤ PhotoResponse.id p < photo_id_counter st).
Proof.
  intros [reqs <-].
  destruct (run_sorted reqs initial initial_sorted) as (Hinc & Hb & _).
  split.
  - intros i j p q Hp Hq Hlt.
    apply (Hinc i j); [| | done]; unfold ids;
      by rewrite list_lookup_fmap, ?Hp, ?Hq.
  - intros p Hp. rewrite Forall_forall in Hb. apply Hb.
    apply list_elem_of_fmap. by exists p.
Qed.

Lemma ids_increasing_witness :
  let st := (run [DELETE_photo 2; POST_photos minimal "later"]
               three_photos).2 in
  reachable st ∧ ids (photos_db st) = [1; 3; 4] ∧
  ∀ p, p ∈ photos_db st → 1 ≤ PhotoResponse.id p < 5.
Proof.
  intros st.
  assert (reachable st) as Hr by (eexists (_ ++ _); by rewrite run_app).
  split; [exact Hr |]. split; [reflexivity |].
  exact (proj2 (ids_increasing st Hr)).
Defined.

(** ** Counting the photos *)

Lemma handle_length req st :
  (length (photos_db (handle req st).2) +
     length (deleted_ids [(handle req st).1]) =
   length (photos_db st) + length (created_ids [(handle req st).1]))%nat.
Proof.
  rewrite created_ids_cons, deleted_ids_cons.
  rewrite <- !(length_fmap PhotoResponse.id). fold (ids (photos_db st)).
  fold (ids (photos_db (handle req st).2)).
  destruct (handle_ids_cases req st)
    as [(-> & -> & ->) | [(-> & i & x & -> & Hi & ->) | (-> & -> & ->)]];
    cbn [length created_ids deleted_ids omap list_omap].
  - rewrite length_app. simpl. lia.
  - rewrite length_delete by eauto. apply lookup_lt_Some in Hi. lia.
  - lia.
Qed.

(** X9. The count reported by [health_check] is kept by the requests:
    after any run of requests, the number of photos it reports plus the
    number of successful deletes of the run equals the number of photos
    before the run plus the number of successful creates; from the
    initial state it is the number of creates minus the number of
    deletes. *)
Theorem health_check_count reqs now st :
  (photos_count (health_check now (run reqs st).2) +
     length (deleted_ids (run reqs st).1) =
   photos_count (health_check now st) +
     length (created_ids (run reqs st).1))%nat.
Proof.
  cbn [health_check photos_count]. revert st.
  induction reqs as [| req reqs IH]; intros st; [done |].
  rewrite run_cons. cbn [fst snd].
  rewrite created_ids_cons, deleted_ids_cons.
  specialize (IH (handle req st).2).
  pose proof (handle_length req st) as Hstep.
  rewrite created_ids_cons, deleted_ids_cons in Hstep.
  destruct (created_id (handle req st).1), (deleted_id (handle req st).1);
    cbn [length created_ids deleted_ids omap list_omap] in *; lia.
Qed.

(** ** The collection holds what was created and not deleted *)

Lemma filter_all {A} (P : A → Prop) `{∀ x, Decision (P x)} (l : list A) :
  (∀ x, x ∈ l → P x) → filter P l = l.
Proof.
  induction l as [| x l IH]; intros Hall; [done |].
  rewrite filter_cons_True by (apply Hall, list_elem_of_here).
  f_equal. apply IH. intros y Hy. by apply Hall, list_elem_of_further.
Qed.

Lemma filter_ne_delete (l : list Z) i x :
  NoDup l → l !! i = Some x → filter (λ y, y ≠ x) l = delete i l.
Proof.
  revert i. induction l as [| a l IH]; intros [| i] Hnd Hi; try done;
    apply NoDup_cons in Hnd as [Ha Hnd].
  - injection Hi as ->. rewrite filter_cons_False by (intros H; by apply H).
    apply filter_all. intros y Hy ->. done.
  - cbn in Hi. rewrite filter_cons_True.
    + cbn [delete list_delete]. f_equal. by apply IH.
    + intros ->. apply Ha. by eapply list_elem_of_lookup_2.
Qed.

Lemma run_ids_filter reqs st :
  registry_ok st →
  ids (photos_db (run reqs st).2) =
    filter (λ x, x ∉ deleted_ids (run reqs st).1)
           (ids (photos_db st) ++ created_ids (run reqs st).1).
Proof.
  revert st. induction reqs as [| req reqs IH]; intros st Hok.
  - cbn. rewrite app_nil_r. symmetry. apply filter_all.
    intros x _. apply not_elem_of_nil.
  - rewrite run_cons. cbn [fst snd].
    rewrite created_ids_cons, deleted_ids_cons.
    rewrite (IH _ (handle_ok req st Hok)).
    pose proof (run_created_ids reqs (handle req st).2) as [Hcreated _].
    pose proof (handle_counter_le req st) as Hle.
    destruct Hok as [Hnd Hlt]. rewrite Forall_forall in Hlt.
    destruct (handle_ids_cases req st)
      as [(-> & -> & ->) | [(-> & i & x & -> & Hi & ->) | (-> & -> & ->)]].
    + by rewrite <- app_assoc.
    + rewrite <- (filter_ne_delete _ _ x Hnd Hi).
      rewrite <- (filter_all (λ y, y ≠ x)
                    (created_ids (run reqs (handle req st).2).1)) at 1.
      * rewrite <- filter_app, list_filter_filter.
        apply list_filter_iff. intros y. rewrite not_elem_of_cons. tauto.
      * intros y Hy ->. rewrite Hcreated in Hy.
        apply elem_of_seqZ in Hy. apply list_elem_of_lookup_2 in Hi.
        specialize (Hlt _ Hi). lia.
    + done.
Qed.

(** X10. In every state of the service and after any further requests,
    the ids of the collection are, in this order, the ids that were there
    followed by the ids the requests created, without the ids the
    requests deleted. *)
Theorem collection_ids reqs st :
  reachable st →
  ids (photos_db (run reqs st).2) =
    filter (λ x, x ∉ deleted_ids (run reqs st).1)
           (ids (photos_db st) ++ created_ids (run reqs st).1).
Proof. intros Hr. by apply run_ids_filter, reachable_ok. Qed.

Lemma collection_ids_witness :
  let reqs := [DELETE_photo 2; POST_photos minimal "later"; DELETE_photo 7;
               PUT_photo 1 photo3; DELETE_photo 4;
               POST_photos photo2 "latest"] in
  reachable three_photos ∧
  created_ids (run reqs three_photos).1 = [4; 5] ∧
  deleted_ids (run reqs three_photos).1 = [2; 4] ∧
  ids (photos_db (run reqs three_photos).2) = [1; 3; 5].
Proof.
  intros reqs.
  assert (reachable three_photos) as Hr by (eexists; reflexivity).
  split; [exact Hr |]. split; [reflexivity |]. split; [reflexivity |].
  rewrite (collection_ids reqs three_photos Hr). reflexivity.
Defined.

(** ** Listing after a create *)

(** X11. A create shows in the listings in the last place, and only
    where it belongs: listing without a tag (or with the empty tag), or
    with a tag the new photo carries, gives the former listing followed
    by the new record; listing with any other non-empty tag gives the
    former listing unchanged. *)
Theorem list_photos_create tag photo now st :
  let new_photo := (create_photo photo now st).1 in
  let st' := (create_photo photo now st).2 in
  list_photos tag st' =
    list_photos tag st ++
      match tag with
      | Some T =>
          if decide (T = "" ∨ T ∈ or_empty (Photo.tags photo))
          then [new_photo] else []
      | None => [new_photo]
      end.
Proof.
  cbn zeta. destruct tag as [T |]; [| done].
  unfold list_photos. cbn [create_photo fst snd photos_db].
  destruct (decide (T = "")) as [-> | HT].
  - by rewrite decide_True by (by left).
  - rewrite truthy_nonempty by done. rewrite filter_app. f_equal.
    rewrite filter_cons. cbn [PhotoResponse.tags].
    destruct (decide (T ∈ or_empty (Photo.tags photo))) as [Hin | Hout].
    + by rewrite decide_True by (by right).
    + rewrite decide_False; [done |]. by intros [? | ?].
Qed.

(** ** Validation comes first *)

(** X12. A body is accepted exactly when its title and its url are given
    and neither its description nor its tags are malformed.  A replace
    request with a rejected body is answered 422 and changes nothing,
    whether or not the id exists; with an accepted body it is answered
    404 exactly when the id is absent. *)
Theorem validation_first photo_id b st :
  (is_Some (validate b) ↔
   (∃ t, body_title b = Given t) ∧ (∃ u, body_url b = Given u) ∧
   body_description b ≠ Malformed ∧ body_tags b ≠ Malformed) ∧
  (validate b = None →
   handle (PUT_photo photo_id b) st = (unprocessable, st) ∧
   ∀ now, handle (POST_photos b now) st = (unprocessable, st)) ∧
  (is_Some (validate b) →
   (http_status (handle (PUT_photo photo_id b) st).1 = 404 ↔
    photo_id ∉ ids (photos_db st)) ∧
   (http_status (handle (PUT_photo photo_id b) st).1 = 200 ↔
    photo_id ∈ ids (photos_db st))).
Proof.
  split; [| split].
  - unfold validate.
    destruct b as [[| | | t] [| | | d] [| | | u] [| | | g]]; cbn;
      split; (try by intros [? [=]]);
      (try by intros ([? [=]] & [? [=]] & ? & ?));
      (try by intros _; eauto 10).
  - intros Hv. cbn [handle]. by rewrite Hv.
  - intros [photo Hv]. cbn [handle]. rewrite Hv. unfold update_photo.
    destruct (find_photo photo_id (photos_db st)) as [[i p]|] eqn:E.
    + assert (photo_id ∈ ids (photos_db st)) as Hin.
      { apply find_photo_Some in E as (Hi & Hid & _).
        apply list_elem_of_fmap. exists p. split; [done |].
        by eapply list_elem_of_lookup_2. }
      cbn. split; split; intros; try done; try lia.
    + apply find_photo_None in E. cbn. split; split; intros; try done; lia.
Qed.

Lemma validation_first_witness :
  let b := {| body_title := Missing; body_description := Missing;
              body_url := Given "u"; body_tags := Missing |} in
  validate b = None ∧
  handle (PUT_photo 999 b) three_photos = (unprocessable, three_photos) ∧
  handle (PUT_photo 2 b) three_photos = (unprocessable, three_photos) ∧
  is_Some (validate photo1) ∧
  http_status (handle (PUT_photo 999 photo1) three_photos).1 = 404.
Proof.
  intros b. assert (validate b = None) as Hb by reflexivity.
  assert (is_Some (validate photo1)) as Hv by (eexists; reflexivity).
  split; [exact Hb |].
  split; [exact (proj1 (proj1 (proj2 (validation_first 999 b three_photos))
                          Hb)) |].
  split; [exact (proj1 (proj1 (proj2 (validation_first 2 b three_photos))
                          Hb)) |].
  split; [exact Hv |].
  apply (proj2 (proj2 (validation_first 999 photo1 three_photos)) Hv).
  apply find_photo_None. reflexivity.
Defined.

(** * hello_add.py *)

Lemma fib_SS k : fib (S (S k)) = fib k + fib (S k).
Proof. done. Qed.

Lemma loop_fib count k :
  hello_add.loop count (Z.of_nat k) (fib k) (fib (S k)) =
    (λ j, str_int (Z.of_nat j + 1) +:+ ": " +:+ str_int (fib j))
      <$> seq k count.
Proof.
  revert k. induction count as [| count IH]; intros k; [done |].
  cbn [hello_add.loop seq fmap list_fmap]. f_equal.
  replace (Z.of_nat k + 1) with (Z.of_nat (S k)) by lia.
  rewrite <- fib_SS. apply IH.
Qed.

Lemma loop_length count i a b :
  length (hello_add.loop count i a b) = count.
Proof.
  revert i a b. induction count as [| count IH]; intros i a b; [done |].
  cbn [hello_add.loop length]. by rewrite IH.
Qed.

(** X13. For a positive [n], [fibonacci n] prints the headline naming
    [n] and then [n] lines; line number [j + 1] reads "<j + 1>: <F j>"
    where [F] is the Fibonacci sequence given by [F 0 = 0], [F 1 = 1],
    [F (k + 2) = F k + F (k + 1)]: the loop with its two running values
    computes that sequence. *)
Theorem fibonacci_lines n :
  0 < n →
  hello_add.fibonacci n =
    ("Fibonacci sequence (first " +:+ str_int n +:+ " numbers):")
      :: ((λ j, str_int (Z.of_nat j + 1) +:+ ": " +:+ str_int (fib j))
            <$> seq 0 (Z.to_nat n)).
Proof.
  intros Hn. unfold hello_add.fibonacci.
  rewrite decide_False by lia. f_equal. apply (loop_fib _ 0).
Qed.

Lemma fibonacci_lines_witness :
  0 < 100 ∧
  hello_add.main =
    "Fibonacci sequence (first 100 numbers):"
      :: ((λ j, str_int (Z.of_nat j + 1) +:+ ": " +:+ str_int (fib j))
            <$> seq 0 100).
Proof.
  assert (0 < 100) as Hn by lia.
  split; [exact Hn | exact (fibonacci_lines 100 Hn)].
Defined.

(** X14. [fibonacci n] prints nothing at all when [n] is zero or
    negative (not even the headline), and exactly [n + 1] lines
    otherwise. *)
Theorem fibonacci_length n :
  Z.of_nat (length (hello_add.fibonacci n)) =
    if decide (n ≤ 0) then 0 else n + 1.
Proof.
  unfold hello_add.fibonacci. case_decide; [done |].
  cbn [length]. rewrite loop_length. lia.
Qed.

Example main_last_line :
  length hello_add.main = 101%nat ∧
  last hello_add.main = Some "100: 218922995834555169026".
Proof. split; vm_compute; reflexivity. Qed.

(** * test_main.py *)

Lemma contains_cons needle a hay :
  contains needle (String a hay) =
    String.prefix needle (String a hay) || contains needle hay.
Proof. done. Qed.

Lemma contains_append pre needle hay :
  contains needle hay = true → contains needle (pre +:+ hay) = true.
Proof.
  intros H. induction pre as [| a pre IH]; [done |].
  change (contains needle (String a (pre +:+ hay)) = true).
  rewrite contains_cons, IH. apply orb_true_r.
Qed.

Lemma handle_post_valid b photo now st :
  validate b = Some photo →
  handle (POST_photos b now) st =
    (render 201 OnePhoto (Return (create_photo photo now st).1),
     (create_photo photo now st).2).
Proof. intros Hv. cbn [handle]. by rewrite Hv. Qed.

Lemma post_numbered_spec rounds clock acc st :
  (test_main.post_numbered rounds clock acc st).1 =
    Some (acc ++ seqZ (photo_id_counter st) (Z.of_nat (length rounds))) ∧
  photo_id_counter (test_main.post_numbered rounds clock acc st).2 =
    photo_id_counter st + Z.of_nat (length rounds) ∧
  ids (photos_db (test_main.post_numbered rounds clock acc st).2) =
    ids (photos_db st) ++
      seqZ (photo_id_counter st) (Z.of_nat (length rounds)).
Proof.
  revert acc st. induction rounds as [| i rounds IH]; intros acc st.
  - cbn. rewrite !app_nil_r. split; [done | split; [lia | done]].
  - cbn [test_main.post_numbered].
    erewrite handle_post_valid by reflexivity.
    cbn [render json_id body create_photo fst snd PhotoResponse.id].
    match goal with
    | |- context [test_main.post_numbered rounds clock ?a ?s] =>
        destruct (IH a s) as (-> & -> & ->)
    end.
    cbn [photo_id_counter photos_db length].
    rewrite Nat2Z.inj_succ, (seqZ_cons (photo_id_counter st)) by lia.
    rewrite Z.pred_succ. unfold ids. rewrite fmap_app, <- !app_assoc.
    cbn. unfold Z.succ. split; [done | split; [lia | done]].
Qed.

Lemma seqZ_three c : seqZ c (Z.of_nat 3) = [c; c + 1; c + 2].
Proof.
  unfold seqZ. rewrite Nat2Z.id. cbn [seq fmap list_fmap].
  replace (Z.of_nat 0 + c) with c by lia.
  replace (Z.of_nat 1 + c) with (c + 1) by lia.
  by replace (Z.of_nat 2 + c) with (c + 2) by lia.
Qed.

(** X15. The fixture [reset_db] empties the collection but does not
    reach the counter of [main], so [test_photo_id_increment], which
    expects the ids 1, 2, 3, passes exactly when the counter of the
    application is still 1 when the test starts; after any earlier
    requests that created a photo (for instance an earlier test) it
    fails.  It leaves three photos numbered from the old counter on. *)
Theorem test_photo_id_increment_spec clock st :
  ((test_main.test_photo_id_increment clock st).1 = true ↔
   photo_id_counter st = 1) ∧
  (∀ reqs, st = (run reqs initial).2 →
           created_ids (run reqs initial).1 ≠ [] →
           (test_main.test_photo_id_increment clock st).1 = false) ∧
  ids (photos_db (test_main.test_photo_id_increment clock st).2) =
    [photo_id_counter st; photo_id_counter st + 1; photo_id_counter st + 2].
Proof.
  unfold test_main.test_photo_id_increment.
  destruct (post_numbered_spec (seq 0 3) clock [] (test_main.reset_db st))
    as (Hids & _ & Hdb).
  destruct (test_main.post_numbered (seq 0 3) clock []
              (test_main.reset_db st)) as [r st1].
  cbn [fst snd] in *. subst r.
  cbn [test_main.reset_db photo_id_counter photos_db] in *.
  assert (bool_decide
            (Some ([] ++ seqZ (photo_id_counter st)
                           (Z.of_nat (length (seq 0 3))))
             = Some [1; 2; 3]) = true ↔ photo_id_counter st = 1) as Hiff.
  { rewrite bool_decide_eq_true. cbn [length seq app].
    rewrite seqZ_three. split.
    - by intros [= -> _].
    - by intros ->. }
  split; [exact Hiff |]. split.
  - intros reqs -> Hcreated. apply not_true_is_false. rewrite Hiff.
    destruct (run_created_ids reqs initial) as [_ Hc]. rewrite Hc.
    destruct (created_ids (run reqs initial).1); [done |].
    cbn [length photo_id_counter initial]. lia.
  - rewrite Hdb. cbn [length seq]. by rewrite seqZ_three.
Qed.

Lemma test_photo_id_increment_spec_witness :
  (test_main.test_photo_id_increment (λ _, "now") initial).1 = true ∧
  three_photos = (run [POST_photos photo1 "2024-01-01T10:00:00";
                       POST_photos photo2 "2024-01-01T10:00:01";
                       POST_photos photo3 "2024-01-01T10:00:02"] initial).2 ∧
  (test_main.test_photo_id_increment (λ _, "now") three_photos).1 = false ∧
  ids (photos_db
         (test_main.test_photo_id_increment (λ _, "now") three_photos).2)
    = [4; 5; 6].
Proof.
  split.
  { apply (proj1 (test_photo_id_increment_spec (λ _, "now") initial)).
    reflexivity. }
  split; [reflexivity |]. split.
  - eapply (proj1 (proj2 (test_photo_id_increment_spec (λ _, "now")
                            three_photos))); [reflexivity |].
    vm_compute. discriminate.
  - rewrite (proj2 (proj2 (test_photo_id_increment_spec (λ _, "now")
                             three_photos))). reflexivity.
Defined.

Lemma delete_only photo_id p counter :
  PhotoResponse.id p = photo_id →
  delete_photo photo_id {| photos_db := [p]; photo_id_counter := counter |} =
    (Return {| message := "Photo " +:+ str_int photo_id
                            +:+ " deleted successfully";
               deleted_photo := p |},
     {| photos_db := []; photo_id_counter := counter |}).
Proof.
  intros Hid. unfold delete_photo. cbn [photos_db].
  by rewrite find_photo_cons, decide_True.
Qed.

(** X16. [test_delete_photo] passes in whatever state the application is
    when the test starts and whatever the clock reads: after the
    fixture, the create answers with an id, the delete of that id
    answers 200 with a message containing "deleted successfully", and
    the get of that id answers 404. *)
Theorem test_delete_photo_passes now st :
  (test_main.test_delete_photo now st).1 = true.
Proof.
  unfold test_main.test_delete_photo.
  erewrite handle_post_valid by reflexivity.
  cbn [render json_id body create_photo fst snd PhotoResponse.id
       test_main.reset_db photo_id_counter photos_db app].
  cbn [handle]. erewrite delete_only by reflexivity.
  cbn [render http_status json_message body message].
  rewrite bool_decide_eq_true_2 by done. cbn [negb].
  rewrite (contains_append "Photo ")
    by (by apply (contains_append (str_int (photo_id_counter st)))).
  cbn [negb handle get_photo photos_db]. reflexivity.
Qed.

(** * test_api.py *)

Lemma find_photo_nil photo_id : find_photo photo_id [] = None.
Proof. done. Qed.

(** Side conditions of the symbolic run: arithmetic on the counter, or a
    closed decidable fact. *)
Ltac closed :=
  first [ lia | done
        | apply (bool_decide_unpack _); vm_compute; exact I
        | apply (bool_decide_eq_false_1 _); vm_compute; reflexivity ].

(** Runs the script on a state whose counter is a variable, settling each
    comparison of ids on the way. *)
Ltac crunch :=
  repeat first
    [ progress cbn -[Z.eq_dec Z.add str_int]
    | progress unfold get_photo, update_photo, delete_photo
    | rewrite find_photo_cons
    | rewrite find_photo_nil
    | rewrite bool_decide_eq_true_2 by closed
    | rewrite bool_decide_eq_false_2 by closed
    | rewrite decide_True by closed
    | rewrite decide_False by closed ].

Lemma test_api_passes_iff clock st :
  (test_api.test_api clock st).1 = true ↔
  photos_db st = [] ∧
  ¬ (photo_id_counter st ≤ 9999 ≤ photo_id_counter st + 2).
Proof.
  destruct st as [db c]. cbn [photos_db photo_id_counter]. split.
  - intros H. destruct db as [| p db]; [| cbn in H; discriminate].
    split; [done |]. intros Hrange.
    assert (c = 9997 ∨ c = 9998 ∨ c = 9999) as [-> | [-> | ->]] by lia;
      vm_compute in H; discriminate.
  - intros [-> Hc].
    unfold test_api.test_api, test_api.test_api_read_update,
      test_api.test_api_delete.
    crunch. reflexivity.
Qed.

Lemma test_api_leaves_photos clock c :
  ¬ (c ≤ 9999 ≤ c + 2) →
  ids (photos_db (test_api.test_api clock
                    {| photos_db := []; photo_id_counter := c |}).2)
  = [c; c + 1; c + 1 + 1 + 1].
Proof.
  intros Hc.
  unfold test_api.test_api, test_api.test_api_read_update,
    test_api.test_api_delete.
  crunch. reflexivity.
Qed.

(** X17. The script [test_api] returns true exactly when the server it
    talks to has an empty collection and a counter for which 9999 is
    none of the three ids the script creates first; it then leaves three
    photos behind (the first two and the minimal one), so a second run
    against the same server returns false. *)
Theorem test_api_spec clock clock' st :
  ((test_api.test_api clock st).1 = true ↔
   photos_db st = [] ∧
   ¬ (photo_id_counter st ≤ 9999 ≤ photo_id_counter st + 2)) ∧
  ((test_api.test_api clock st).1 = true →
   ids (photos_db (test_api.test_api clock st).2) =
     [photo_id_counter st; photo_id_counter st + 1;
      photo_id_counter st + 3] ∧
   (test_api.test_api clock' (test_api.test_api clock st).2).1 = false).
Proof.
  split; [apply test_api_passes_iff |].
  intros [Hdb Hc]%test_api_passes_iff.
  destruct st as [db c]. cbn [photos_db photo_id_counter] in *. subst db.
  pose proof (test_api_leaves_photos clock c Hc) as Hids.
  split.
  - rewrite Hids. f_equal. f_equal. f_equal. lia.
  - apply not_true_is_false. intros [Hempty _]%test_api_passes_iff.
    by rewrite Hempty in Hids.
Qed.

Lemma test_api_spec_witness :
  (test_api.test_api (λ _, "now") initial).1 = true ∧
  ids (photos_db (test_api.test_api (λ _, "now") initial).2) = [1; 2; 4] ∧
  (test_api.test_api (λ _, "later")
     (test_api.test_api (λ _, "now") initial).2).1 = false.
Proof.
  assert ((test_api.test_api (λ _, "now") initial).1 = true) as Hpass
    by (vm_compute; reflexivity).
  split; [exact Hpass |].
  exact (proj2 (test_api_spec (λ _, "now") (λ _, "later") initial) Hpass).
Defined.
